(** * AP_RangeFinder_uLanding: the Aerotenna uLanding serial rangefinder driver

    A shallow embedding of
    [libraries/AP_RangeFinder/AP_RangeFinder_uLanding.cpp]: the firmware
    version detector [detect_version], the frame decoder [get_reading] and
    the polling entry point [update], followed by the properties of the
    driver that its specification states.

    Conventions of the embedding:
    - fixed-width integers are [Z] with the narrowing written out
      ([to_uint8], [to_uint16], [to_int16], [to_uint32]);
    - bytes on the wire are [Byte.byte]; [b2z] is the integer promotion;
    - [float] is IEEE 754 binary32, given by the Standard Library's
      executable specification [SpecFloat] at precision 24 and exponent
      bound 128;
    - behaviour that C++ leaves undefined (a store outside [linebuf], a
      float-to-integer conversion whose value does not fit, a read from an
      empty receive queue) is an explicit [Fault] of the [result] monad. *)

From Stdlib Require Import ZArith List Bool Lia.
From Stdlib Require Import Strings.Byte.
From Stdlib Require Import Floats.SpecFloat.
Import ListNotations.
Open Scope Z_scope.

(** ** Machine integers *)

Definition to_uint8 (x : Z) : Z := x mod 256.
Definition to_uint16 (x : Z) : Z := x mod 65536.
Definition to_uint32 (x : Z) : Z := x mod 4294967296.
Definition to_int16 (x : Z) : Z := (x + 32768) mod 65536 - 32768.

(** Integer promotion of a [uint8_t]. *)
Definition b2z (b : byte) : Z := Z.of_N (Byte.to_N b).

(** ** Undefined behaviour as a fault *)

Inductive fault : Type :=
| OutOfBounds     (* store to linebuf[i] with i outside the array *)
| BadNarrowing    (* float converted to uint16_t does not fit *)
| ReadEmpty.      (* uart->read() with nothing available *)

Inductive result (A : Type) : Type :=
| Ok (a : A)
| Fault (f : fault).
Arguments Ok {A} a.
Arguments Fault {A} f.

Definition bind {A B : Type} (r : result A) (k : A -> result B) : result B :=
  match r with
  | Ok a => k a
  | Fault f => Fault f
  end.

Notation "x <- r ;; k" := (bind r (fun x => k))
  (at level 61, r at next level, right associativity).
Notation "' p <- r ;; k" := (bind r (fun x => let p := x in k))
  (at level 61, p pattern, r at next level, right associativity).

(** ** Single-precision floats *)

Module F32.
Definition prec : Z := 24.
Definition emax : Z := 128.

Definition zero : spec_float := S754_zero false.
Definition add : spec_float -> spec_float -> spec_float := SFadd prec emax.
Definition mul : spec_float -> spec_float -> spec_float := SFmul prec emax.
Definition div : spec_float -> spec_float -> spec_float := SFdiv prec emax.

(** Conversion of an [int] to [float] (round to nearest even). *)
Definition of_Z (n : Z) : spec_float := binary_normalize prec emax n 0 false.

(** The literal [2.5f], that is 5 * 2^-1. *)
Definition two_and_a_half : spec_float := binary_normalize prec emax 5 (-1) false.

(** The integer part of [m * 2^e], for [m] not negative. *)
Definition scale (m e : Z) : Z := if 0 <=? e then m * 2 ^ e else m / 2 ^ (- e).

(** Truncation toward zero; [None] for infinities and NaN. *)
Definition trunc (x : spec_float) : option Z :=
  match x with
  | S754_zero _ => Some 0
  | S754_finite s m e => Some (if s then - scale (Z.pos m) e else scale (Z.pos m) e)
  | S754_infinity _ => None
  | S754_nan => None
  end.

(** Implicit conversion [float] -> [uint16_t]: the fractional part is
    dropped, and the conversion is undefined when the result does not fit. *)
Definition to_uint16 (x : spec_float) : result Z :=
  match trunc x with
  | Some z => if (0 <=? z) && (z <=? 65535) then Ok z else Fault BadNarrowing
  | None => Fault BadNarrowing
  end.
End F32.

(** ** Constants *)

Definition ULANDING_HDR : Z := 254.   (* Header Byte from uLanding (0xFE) *)
Definition ULANDING_HDR_V0 : Z := 72. (* Header Byte for beta V0 of uLanding (0x48) *)

(** Modelled from the spec: the class declaration
    (AP_RangeFinder_uLanding.h) is not part of the sources, so the length of
    the member array [linebuf] is taken from the frame format: the frame
    buffer holds one ChecksummedV1 frame of 6 bytes, indices 0..5, the
    largest index [get_reading] reads being [linebuf[5]]. *)
Definition LINEBUF_SIZE : Z := 6.

(** ** The serial port

    Modelled from the spec: the HAL's UART driver is an external
    collaborator with two operations, "how many bytes are currently
    available" and "read one byte".  The port is the queue of received bytes
    that have not been read yet. *)

Definition UARTDriver : Type := list byte.

Definition available (rx : UARTDriver) : Z := Z.of_nat (length rx).

Definition read (rx : UARTDriver) : result (byte * UARTDriver) :=
  match rx with
  | [] => Fault ReadEmpty
  | c :: rx' => Ok (c, rx')
  end.

(** ** Driver state *)

Inductive RangeFinder_Status : Type :=
| RangeFinder_NotConnected
| RangeFinder_NoData
| RangeFinder_OutOfRangeLow
| RangeFinder_OutOfRangeHigh
| RangeFinder_Good.

Record AP_RangeFinder_uLanding : Type := {
  uart : option UARTDriver;      (* nullptr when no port is configured *)
  _version_known : bool;
  _version : Z;                  (* uint8_t *)
  _header : Z;                   (* uint8_t *)
  linebuf : list byte;           (* uint8_t linebuf[LINEBUF_SIZE] *)
  linebuf_len : Z;               (* uint8_t *)
  last_reading_ms : Z;           (* uint32_t *)
  distance_cm : Z;               (* state.distance_cm, uint16_t *)
  status : RangeFinder_Status    (* state.status *)
}.

Definition set_uart (s : AP_RangeFinder_uLanding) (u : option UARTDriver) :=
  {| uart := u; _version_known := _version_known s; _version := _version s;
     _header := _header s; linebuf := linebuf s; linebuf_len := linebuf_len s;
     last_reading_ms := last_reading_ms s; distance_cm := distance_cm s;
     status := status s |}.

Definition set_version (s : AP_RangeFinder_uLanding) (v h : Z) :=
  {| uart := uart s; _version_known := true; _version := v;
     _header := h; linebuf := linebuf s; linebuf_len := linebuf_len s;
     last_reading_ms := last_reading_ms s; distance_cm := distance_cm s;
     status := status s |}.

Definition set_linebuf (s : AP_RangeFinder_uLanding) (lb : list byte) (len : Z) :=
  {| uart := uart s; _version_known := _version_known s; _version := _version s;
     _header := _header s; linebuf := lb; linebuf_len := len;
     last_reading_ms := last_reading_ms s; distance_cm := distance_cm s;
     status := status s |}.

(** ** detect_version *)

(** The local variables of the scan loop. *)
Record detect_locals : Type := {
  d_hdr_found : bool;
  d_byte1 : Z;     (* uint8_t *)
  d_count : Z      (* uint8_t *)
}.

Definition detect_init : detect_locals :=
  {| d_hdr_found := false; d_byte1 := 0; d_count := 0 |}.

Inductive detect_outcome : Type :=
| DetectContinue (l : detect_locals)
| DetectReturn (version header : Z).

(** One iteration of the loop body on the byte [c] just read. *)
Definition detect_body (c : Z) (l : detect_locals) : detect_outcome :=
  if ((c =? ULANDING_HDR_V0) || (c =? ULANDING_HDR)) && negb (d_hdr_found l) then
    DetectContinue {| d_hdr_found := true; d_byte1 := c;
                      d_count := to_uint8 (d_count l + 1) |}
  else if d_hdr_found l then
    if d_byte1 l =? ULANDING_HDR_V0 then
      let count := to_uint8 (d_count l + 1) in
      if count <? 4 then
        (* need to collect 4 bytes to check for recurring header byte *)
        DetectContinue {| d_hdr_found := true; d_byte1 := d_byte1 l; d_count := count |}
      else if c =? d_byte1 l then
        (* header byte is recurring *)
        DetectReturn 0 ULANDING_HDR_V0
      else
        (* start the search again for a header byte *)
        DetectContinue detect_init
    else
      if negb (Z.land c 128 =? 0) || (c =? ULANDING_HDR_V0) then
        DetectContinue detect_init
      else
        (* this second byte is the version number *)
        DetectReturn c ULANDING_HDR
  else
    DetectContinue l.

(** [while (nbytes-- > 0)]: [n] is the number of iterations left. *)
Fixpoint detect_loop (n : nat) (rx : UARTDriver) (l : detect_locals)
  : result (UARTDriver * option (Z * Z)) :=
  match n with
  | O => Ok (rx, None)
  | S n' =>
      '(c, rx') <- read rx ;;
      match detect_body (b2z c) l with
      | DetectContinue l' => detect_loop n' rx' l'
      | DetectReturn v h => Ok (rx', Some (v, h))
      end
  end.

Definition detect_version (s : AP_RangeFinder_uLanding)
  : result (AP_RangeFinder_uLanding * bool) :=
  if _version_known s then
    (* we've already detected the uLanding version *)
    Ok (s, true)
  else
    match uart s with
    | None => Ok (s, false)
    | Some rx =>
        let nbytes := to_int16 (available rx) in
        '(rx', found) <- detect_loop (Z.to_nat nbytes) rx detect_init ;;
        match found with
        | Some (v, h) => Ok (set_version (set_uart s (Some rx')) v h, true)
        | None => Ok (set_uart s (Some rx'), false)
        end
    end.

(** ** get_reading *)

(** [linebuf[i] = c]: a store outside the array is undefined. *)
Fixpoint store (lb : list byte) (i : nat) (c : byte) : list byte :=
  match lb, i with
  | [], _ => []
  | _ :: t, O => c :: t
  | x :: t, S i' => x :: store t i' c
  end.

Definition linebuf_store (lb : list byte) (i : Z) (c : byte) : result (list byte) :=
  if (0 <=? i) && (i <? LINEBUF_SIZE) then Ok (store lb (Z.to_nat i) c)
  else Fault OutOfBounds.

(** [linebuf[i]] promoted to [int]. *)
Definition linebuf_at (lb : list byte) (i : nat) : Z := b2z (nth i lb x00).

(** The local variables of the decoding loop, together with the two members
    ([linebuf], [linebuf_len]) the loop updates.  [r_frames] is ghost state:
    the raw values of the frames accepted so far in this call, oldest first.
    The program has no such variable and nothing in the loop reads it; it
    names what [sum] and [count] are made of. *)
Record reading_locals : Type := {
  r_sum : spec_float;       (* float *)
  r_count : Z;              (* uint16_t *)
  r_hdr_found : bool;
  r_linebuf : list byte;
  r_linebuf_len : Z;        (* uint8_t *)
  r_frames : list Z         (* ghost *)
}.

(** parse data from Firmware Version #0 *)
Definition parse_v0 (lb : list byte) : Z :=
  Z.land (linebuf_at lb 2) 127 * 128 + Z.land (linebuf_at lb 1) 127.

(** evaluate checksum *)
Definition checksum_ok (lb : list byte) : bool :=
  Z.land (linebuf_at lb 1 + linebuf_at lb 2 + linebuf_at lb 3 + linebuf_at lb 4) 255
  =? linebuf_at lb 5.

(** parse data from Firmware Version #1 *)
Definition parse_v1 (lb : list byte) : Z :=
  linebuf_at lb 3 * 256 + linebuf_at lb 2.

(** [sum += raw; count++;] *)
Definition accumulate (l : reading_locals) (raw : Z) : reading_locals :=
  {| r_sum := F32.add (r_sum l) (F32.of_Z raw);
     r_count := to_uint16 (r_count l + 1);
     r_hdr_found := r_hdr_found l;
     r_linebuf := r_linebuf l; r_linebuf_len := r_linebuf_len l;
     r_frames := r_frames l ++ [raw] |}.

(** [hdr_found = h; linebuf_len = n;] *)
Definition set_frame (l : reading_locals) (h : bool) (n : Z) : reading_locals :=
  {| r_sum := r_sum l; r_count := r_count l; r_hdr_found := h;
     r_linebuf := r_linebuf l; r_linebuf_len := n; r_frames := r_frames l |}.

(** [linebuf[linebuf_len++] = c;] *)
Definition push (l : reading_locals) (c : byte) : result reading_locals :=
  lb <- linebuf_store (r_linebuf l) (r_linebuf_len l) c ;;
  Ok {| r_sum := r_sum l; r_count := r_count l; r_hdr_found := r_hdr_found l;
        r_linebuf := lb; r_linebuf_len := to_uint8 (r_linebuf_len l + 1);
        r_frames := r_frames l |}.

(** One iteration of the loop body on the byte [c] just read. *)
Definition reading_body (version header : Z) (c : byte) (l : reading_locals)
  : result reading_locals :=
  let l :=
    if (b2z c =? header) && negb (r_hdr_found l) then
      (* located header byte *)
      set_frame l true 0
    else l in
  (* decode index information *)
  if r_hdr_found l then
    l <- push l c ;;
    if (r_linebuf_len l <? LINEBUF_SIZE) || ((version =? 0) && (r_linebuf_len l <? 3)) then
      (* don't process linebuf until we've collected six bytes of data
         (or 3 bytes for Version 0 firmware) *)
      Ok l
    else
      let l :=
        if version =? 0 then
          accumulate l (parse_v0 (r_linebuf l))
        else if checksum_ok (r_linebuf l) then
          accumulate l (parse_v1 (r_linebuf l))
        else l in
      Ok (set_frame l false 0)
  else
    Ok l.

(** [while (nbytes-- > 0)]: [n] is the number of iterations left. *)
Fixpoint reading_loop (n : nat) (version header : Z) (rx : UARTDriver)
  (l : reading_locals) : result (UARTDriver * reading_locals) :=
  match n with
  | O => Ok (rx, l)
  | S n' =>
      '(c, rx') <- read rx ;;
      l' <- reading_body version header c l ;;
      reading_loop n' version header rx' l'
  end.

(** The receive queue behind a [uart] pointer known not to be [nullptr]. *)
Definition uart_queue (s : AP_RangeFinder_uLanding) : UARTDriver :=
  match uart s with
  | Some rx => rx
  | None => []
  end.

(** The locals at the top of [get_reading]'s loop. *)
Definition reading_init (s : AP_RangeFinder_uLanding) : reading_locals :=
  {| r_sum := F32.zero; r_count := 0; r_hdr_found := false;
     r_linebuf := linebuf s; r_linebuf_len := linebuf_len s; r_frames := [] |}.

(** [reading_cm = sum / count; if (_version == 0) reading_cm *= 2.5f;] *)
Definition average (version : Z) (sum : spec_float) (count : Z) : result Z :=
  cm <- F32.to_uint16 (F32.div sum (F32.of_Z count)) ;;
  if version =? 0 then
    F32.to_uint16 (F32.mul (F32.of_Z cm) F32.two_and_a_half)
  else
    Ok cm.

(** [get_reading (uint16_t &reading_cm)]: the reference parameter is passed
    in and returned next to the boolean result. *)
Definition get_reading (s : AP_RangeFinder_uLanding) (reading_cm : Z)
  : result (AP_RangeFinder_uLanding * bool * Z) :=
  match uart s with
  | None => Ok (s, false, reading_cm)
  | Some _ =>
      '(s, known) <- detect_version s ;;
      if negb known then
        (* uLanding version check failed *)
        Ok (s, false, reading_cm)
      else
        let nbytes := to_int16 (available (uart_queue s)) in
        '(rx, l) <- reading_loop (Z.to_nat nbytes) (_version s) (_header s)
                      (uart_queue s) (reading_init s) ;;
        let s := set_linebuf (set_uart s (Some rx)) (r_linebuf l) (r_linebuf_len l) in
        if r_count l =? 0 then
          Ok (s, false, reading_cm)
        else
          cm <- average (_version s) (r_sum l) (r_count l) ;;
          Ok (s, true, cm)
  end.

(** ** update *)

Section Backend.

(** [AP_RangeFinder_Backend::update_status] is not part of the sources: it
    grades [state.distance_cm] against the configured range. *)
Variable update_status : Z -> RangeFinder_Status.

Definition set_backend (s : AP_RangeFinder_uLanding)
  (ms cm : Z) (st : RangeFinder_Status) :=
  {| uart := uart s; _version_known := _version_known s; _version := _version s;
     _header := _header s; linebuf := linebuf s; linebuf_len := linebuf_len s;
     last_reading_ms := ms; distance_cm := cm; status := st |}.

(** [now] is the value of [AP_HAL::millis()] during the call. *)
Definition update (now : Z) (s : AP_RangeFinder_uLanding)
  : result AP_RangeFinder_uLanding :=
  '(s, ok, cm) <- get_reading s (distance_cm s) ;;
  if ok then
    (* update range_valid state based on distance measured *)
    Ok (set_backend s now cm (update_status cm))
  else if to_uint32 (now - last_reading_ms s) >? 200 then
    Ok (set_backend s (last_reading_ms s) cm RangeFinder_NoData)
  else
    Ok (set_backend s (last_reading_ms s) cm (status s)).

(** What can happen to a driver instance between and during polls. *)
Inductive event : Type :=
| Receive (bytes : list byte)   (* the sensor sends more bytes *)
| CallDetectVersion
| CallGetReading                (* get_reading(state.distance_cm) *)
| CallUpdate (now : Z).

Definition step (e : event) (s : AP_RangeFinder_uLanding)
  : result AP_RangeFinder_uLanding :=
  match e with
  | Receive bytes =>
      Ok (set_uart s (option_map (fun rx => rx ++ bytes) (uart s)))
  | CallDetectVersion =>
      '(s, _) <- detect_version s ;; Ok s
  | CallGetReading =>
      '(s, _, cm) <- get_reading s (distance_cm s) ;;
      Ok (set_backend s (last_reading_ms s) cm (status s))
  | CallUpdate now => update now s
  end.

Fixpoint run (es : list event) (s : AP_RangeFinder_uLanding)
  : result AP_RangeFinder_uLanding :=
  match es with
  | [] => Ok s
  | e :: es' => s' <- step e s ;; run es' s'
  end.

End Backend.

(** ** Driver instances for concrete runs *)

(** A driver instance whose dialect has been resolved, with [rx] waiting on
    the port and a zeroed frame buffer. *)
Definition resolved (version header : Z) (rx : list byte) : AP_RangeFinder_uLanding :=
  {| uart := Some rx; _version_known := true; _version := version;
     _header := header; linebuf := repeat x00 6; linebuf_len := 0;
     last_reading_ms := 0; distance_cm := 0; status := RangeFinder_NoData |}.

(** A freshly constructed driver instance with [rx] waiting on the port. *)
Definition fresh (rx : list byte) : AP_RangeFinder_uLanding :=
  {| uart := Some rx; _version_known := false; _version := 0;
     _header := 0; linebuf := repeat x00 6; linebuf_len := 0;
     last_reading_ms := 0; distance_cm := 0; status := RangeFinder_NoData |}.

(** The boolean result and the reading of a call, without the state. *)
Definition outcome {S : Type} (r : result (S * bool * Z)) : result (bool * Z) :=
  '(_, ok, cm) <- r ;; Ok (ok, cm).

(** The raw values of the frames a call of [get_reading] accepts (ghost). *)
Definition decoded_frames (s : AP_RangeFinder_uLanding) : list Z :=
  match uart s with
  | None => []
  | Some _ =>
      match detect_version s with
      | Ok (s, true) =>
          let nbytes := to_int16 (available (uart_queue s)) in
          match reading_loop (Z.to_nat nbytes) (_version s) (_header s)
                  (uart_queue s) (reading_init s) with
          | Ok (_, l) => r_frames l
          | Fault _ => []
          end
      | _ => []
      end
  end.

(** ** Notions used in the statements *)

(** The locals after the loop body has run over [bytes], or [None] when the
    loop has returned on the way. *)
Fixpoint scan_locals (bytes : list byte) (l : detect_locals) : option detect_locals :=
  match bytes with
  | [] => Some l
  | c :: bytes' =>
      match detect_body (b2z c) l with
      | DetectContinue l' => scan_locals bytes' l'
      | DetectReturn _ _ => None
      end
  end.

(** The detector is searching for a header byte once [pre] has been read:
    it has not returned and holds no header candidate. *)
Definition searching_after (pre : list byte) : Prop :=
  exists l, scan_locals pre detect_init = Some l /\ d_hdr_found l = false.

(** While a frame is in progress the write index is inside [linebuf]. *)
Definition frame_inv (l : reading_locals) : Prop :=
  r_hdr_found l = true -> 0 <= r_linebuf_len l < LINEBUF_SIZE.

(** The locals after the loop body has run over [bytes]. *)
Fixpoint reading_fold (v h : Z) (bytes : list byte) (l : reading_locals)
  : result reading_locals :=
  match bytes with
  | [] => Ok l
  | c :: bytes' => l' <- reading_body v h c l ;; reading_fold v h bytes' l'
  end.

(** The locals after [linebuf[linebuf_len++] = c] has landed in bounds. *)
Definition pushed (l : reading_locals) (c : byte) : reading_locals :=
  {| r_sum := r_sum l; r_count := r_count l; r_hdr_found := r_hdr_found l;
     r_linebuf := store (r_linebuf l) (Z.to_nat (r_linebuf_len l)) c;
     r_linebuf_len := r_linebuf_len l + 1; r_frames := r_frames l |}.

(** The locals after a full [linebuf] has been processed. *)
Definition processed (v : Z) (l : reading_locals) : reading_locals :=
  set_frame
    (if v =? 0 then accumulate l (parse_v0 (r_linebuf l))
     else if checksum_ok (r_linebuf l) then accumulate l (parse_v1 (r_linebuf l))
     else l)
    false 0.

(** The locals once the six bytes [fr] have been collected. *)
Definition collected (l : reading_locals) (fr : list byte) : reading_locals :=
  {| r_sum := r_sum l; r_count := r_count l; r_hdr_found := true;
     r_linebuf := fr; r_linebuf_len := LINEBUF_SIZE; r_frames := r_frames l |}.

(** Two runs of the loop agree when they differ at most in the part of
    [linebuf] that the frame in progress has not written yet. *)
Definition agree (l l' : reading_locals) : Prop :=
  r_sum l = r_sum l' /\ r_count l = r_count l' /\ r_frames l = r_frames l' /\
  r_hdr_found l = r_hdr_found l' /\
  length (r_linebuf l) = 6%nat /\ length (r_linebuf l') = 6%nat /\
  (r_hdr_found l = true ->
   r_linebuf_len l = r_linebuf_len l' /\
   0 <= r_linebuf_len l < LINEBUF_SIZE /\
   firstn (Z.to_nat (r_linebuf_len l)) (r_linebuf l) =
   firstn (Z.to_nat (r_linebuf_len l)) (r_linebuf l')).

(** The second half of [binary_round_aux]: the rounded mantissa [N] is
    shifted once more when rounding has carried into a 25th digit. *)
Definition finish (N : Z) (E : Z) : spec_float :=
  let '(mrs, e) := shr_fexp 24 128 N E loc_Exact in
  match shr_m mrs with
  | Z0 => S754_zero false
  | Zpos m => if e <=? 128 - 24 then S754_finite false m e else S754_infinity false
  | Zneg _ => S754_nan
  end.

(** [x] is the normal single-precision float whose value is the integer [k]. *)
Definition repr (k : Z) (x : spec_float) : Prop :=
  exists M E, x = S754_finite false M E /\ Z.pos (digits2_pos M) = 24 /\
              -23 <= E <= 0 /\ Z.pos M = k * 2 ^ (- E).

(** The sum of the raw values of a list of frames. *)
Definition total (frames : list Z) : Z := fold_right Z.add 0 frames.

(** The largest raw value a frame can carry: two 7-bit fields under
    version 0, two bytes otherwise. *)
Definition raw_max (v : Z) : Z := if v =? 0 then 16383 else 65535.

(** [sum] and [count] hold exactly the sum and the number of the accepted
    frames: no rounding has happened in [sum] and [count] has not wrapped. *)
Definition exact_sum (v : Z) (l : reading_locals) : Prop :=
  r_sum l = F32.of_Z (total (r_frames l)) /\
  r_count l = Z.of_nat (length (r_frames l)) /\
  Forall (fun raw => 0 <= raw <= raw_max v) (r_frames l).

(** The scaling of the mean that [get_reading] applies under version 0:
    the integer part of 2.5 times the mean. *)
Definition scaled (v mean : Z) : Z := if v =? 0 then 5 * mean / 2 else mean.

(** The integer mean of the raw values of a list of frames. *)
Definition mean (frames : list Z) : Z := total frames / Z.of_nat (length frames).

(** The decoder is between two frames once [pre] has been read. *)
Definition between_frames (s : AP_RangeFinder_uLanding) (pre : list byte) : Prop :=
  exists l, reading_fold (_version s) (_header s) pre (reading_init s) = Ok l /\
            r_hdr_found l = false.

(** The three members that record the resolved dialect. *)
Definition latch (s : AP_RangeFinder_uLanding) : bool * Z * Z :=
  (_version_known s, _version s, _header s).

(** A computation in which no store has left [linebuf]. *)
Definition stores_in_bounds {A : Type} (r : result A) : Prop :=
  match r with
  | Fault OutOfBounds => False
  | _ => True
  end.

(** A computation that returns, unless a float did not fit [uint16_t]. *)
Definition returns_unless_narrowing {A : Type} (r : result A) (P : A -> Prop) : Prop :=
  match r with
  | Ok a => P a
  | Fault f => f = BadNarrowing
  end.

(** Two ChecksummedV1 frames, of 100 cm and of 200 cm. *)
Definition frame_100 : list byte := [xfe; x01; x64; x00; x00; x65].
Definition frame_200 : list byte := [xfe; x01; xc8; x00; x00; xc9].
Definition frames_100_200 : list byte := frame_100 ++ frame_200.

(** A schedule of polls: before each call of [update], at the time given,
    the bytes given arrive on the port. *)
Definition polls (deliveries : list (Z * list byte)) : list event :=
  flat_map (fun d => [Receive (snd d); CallUpdate (fst d)]) deliveries.

(** A stretch of the byte stream: bytes that hold no header byte, or the six
    bytes of a frame. *)
Inductive segment : Type :=
| Noise (bytes : list byte)
| Frame (c0 c1 c2 c3 c4 c5 : byte).

Definition segment_bytes (g : segment) : list byte :=
  match g with
  | Noise bytes => bytes
  | Frame c0 c1 c2 c3 c4 c5 => [c0; c1; c2; c3; c4; c5]
  end.

(** Noise holds no header byte; a frame starts with one. *)
Definition segment_wf (h : Z) (g : segment) : Prop :=
  match g with
  | Noise bytes => Forall (fun c => b2z c <> h) bytes
  | Frame c0 _ _ _ _ _ => b2z c0 = h
  end.

(** What a stretch adds to the accepted frames under version [v]. *)
Definition segment_frames (v : Z) (g : segment) : list Z :=
  match g with
  | Noise _ => []
  | Frame c0 c1 c2 c3 c4 c5 =>
      if v =? 0 then [Z.land (b2z c2) 127 * 128 + Z.land (b2z c1) 127]
      else if (b2z c1 + b2z c2 + b2z c3 + b2z c4) mod 256 =? b2z c5
           then [b2z c3 * 256 + b2z c2]
           else []
  end.

(** A stream for concrete runs: noise, a frame of 100 cm, noise, a frame
    with a bad checksum, and a frame of 65224 cm. *)
Definition stream_example : list segment :=
  [Noise [x00; x48]; Frame xfe x01 x64 x00 x00 x65; Noise [x12];
   Frame xfe x01 x02 x03 x04 x0b; Frame xfe x01 xc8 xfe x00 xc7].

(** What a stretch adds to the accepted frames when it is decoded by the
    legacy formula: bytes 3 to 5 of a frame, the checksum byte among them,
    play no part. *)
Definition segment_legacy (g : segment) : list Z :=
  match g with
  | Noise _ => []
  | Frame _ c1 c2 _ _ _ => [Z.land (b2z c2) 127 * 128 + Z.land (b2z c1) 127]
  end.

(** * Properties *)

(** ** Integers and the serial port *)

Lemma b2z_range (b : byte) : 0 <= b2z b <= 255.
Proof.
  unfold b2z. pose proof (Byte.to_N_bounded b). lia.
Qed.

Lemma b2z_inj (a b : byte) : b2z a = b2z b -> a = b.
Proof.
  unfold b2z. intros H. apply N2Z.inj in H.
  pose proof (Byte.of_to_N a) as Ha. pose proof (Byte.of_to_N b) as Hb.
  rewrite H in Ha. congruence.
Qed.

Lemma to_int16_small (x : Z) : 0 <= x <= 32767 -> to_int16 x = x.
Proof.
  intros H. unfold to_int16. rewrite Z.mod_small; lia.
Qed.

Lemma to_int16_le (x : Z) : 0 <= x -> to_int16 x <= x.
Proof.
  intros H. unfold to_int16.
  pose proof (Z.mod_le (x + 32768) 65536). lia.
Qed.

(** The loops never run more often than there are bytes waiting. *)
Lemma nbytes_le (rx : UARTDriver) :
  (Z.to_nat (to_int16 (available rx)) <= length rx)%nat.
Proof.
  unfold available. pose proof (to_int16_le (Z.of_nat (length rx))). lia.
Qed.

(** With at most [INT16_MAX] bytes waiting they visit every one of them. *)
Lemma nbytes_all (rx : UARTDriver) :
  available rx <= 32767 -> Z.to_nat (to_int16 (available rx)) = length rx.
Proof.
  unfold available. intros H. rewrite to_int16_small by lia. lia.
Qed.

Lemma land_255_mod (x : Z) : Z.land x 255 = x mod 256.
Proof.
  change 255 with (Z.ones 8). rewrite Z.land_ones by lia. reflexivity.
Qed.

(** ** detect_version: the scan of a prefix *)

Lemma detect_loop_app (pre rest : list byte) (n : nat) (l l' : detect_locals) :
  scan_locals pre l = Some l' ->
  detect_loop (length pre + n) (pre ++ rest) l = detect_loop n rest l'.
Proof.
  revert l. induction pre as [|c pre IH]; intros l H; simpl in *.
  - congruence.
  - destruct (detect_body (b2z c) l) as [l1|v h]; [|discriminate].
    apply IH, H.
Qed.

Lemma detect_loop_ok (n : nat) (rx : UARTDriver) (l : detect_locals) :
  (n <= length rx)%nat ->
  exists rx' found, detect_loop n rx l = Ok (rx', found).
Proof.
  revert rx l. induction n as [|n IH]; intros rx l H; simpl.
  - eauto.
  - destruct rx as [|c rx]; simpl in *; [lia|].
    destruct (detect_body (b2z c) l) as [l1|v h]; [|eauto].
    apply IH. lia.
Qed.

(** A byte that is neither header value leaves a searching detector as it is. *)
Lemma detect_body_skip (c : Z) (l : detect_locals) :
  d_hdr_found l = false -> c <> ULANDING_HDR_V0 -> c <> ULANDING_HDR ->
  detect_body c l = DetectContinue l.
Proof.
  intros Hf H1 H2. unfold detect_body. rewrite Hf.
  apply Z.eqb_neq in H1, H2. rewrite H1, H2. reflexivity.
Qed.

Lemma searching_after_no_header (pre : list byte) :
  Forall (fun c => b2z c <> ULANDING_HDR_V0 /\ b2z c <> ULANDING_HDR) pre ->
  searching_after pre.
Proof.
  intros H. exists detect_init. split; [|reflexivity].
  induction H as [|c pre [H1 H2] _ IH]; simpl; [reflexivity|].
  rewrite detect_body_skip by (auto; reflexivity). exact IH.
Qed.

(** What [detect_version] does to an instance it has to scan for. *)
Lemma detect_version_scan (s : AP_RangeFinder_uLanding) (rx : UARTDriver) :
  _version_known s = false -> uart s = Some rx ->
  detect_version s =
    ('(rx', found) <- detect_loop (Z.to_nat (to_int16 (available rx))) rx detect_init ;;
     match found with
     | Some (v, h) => Ok (set_version (set_uart s (Some rx')) v h, true)
     | None => Ok (set_uart s (Some rx'), false)
     end).
Proof.
  intros Hk Hu. unfold detect_version. rewrite Hk, Hu. reflexivity.
Qed.

(** ** get_reading: stores stay inside the frame buffer *)

Lemma to_uint8_succ (n : Z) : 0 <= n < LINEBUF_SIZE -> to_uint8 (n + 1) = n + 1.
Proof.
  unfold LINEBUF_SIZE, to_uint8. intros H. apply Z.mod_small. lia.
Qed.

Lemma push_ok (l : reading_locals) (c : byte) :
  0 <= r_linebuf_len l < LINEBUF_SIZE ->
  push l c =
    Ok {| r_sum := r_sum l; r_count := r_count l; r_hdr_found := r_hdr_found l;
          r_linebuf := store (r_linebuf l) (Z.to_nat (r_linebuf_len l)) c;
          r_linebuf_len := r_linebuf_len l + 1; r_frames := r_frames l |}.
Proof.
  intros H. unfold push, linebuf_store.
  replace ((0 <=? r_linebuf_len l) && (r_linebuf_len l <? LINEBUF_SIZE)) with true
    by (symmetry; apply andb_true_intro; split; [apply Z.leb_le|apply Z.ltb_lt]; lia).
  simpl. rewrite to_uint8_succ by exact H. reflexivity.
Qed.

Lemma reading_body_ok (v h : Z) (c : byte) (l : reading_locals) :
  frame_inv l -> exists l', reading_body v h c l = Ok l' /\ frame_inv l'.
Proof.
  intros Hinv. unfold reading_body.
  set (l0 := if (b2z c =? h) && negb (r_hdr_found l) then set_frame l true 0 else l).
  assert (H0 : frame_inv l0).
  { subst l0. destruct ((b2z c =? h) && negb (r_hdr_found l)); [|exact Hinv].
    intros _. simpl. unfold LINEBUF_SIZE. lia. }
  destruct (r_hdr_found l0) eqn:Hf.
  - rewrite push_ok by (apply H0, Hf). cbn [bind r_linebuf_len r_linebuf].
    destruct ((r_linebuf_len l0 + 1 <? LINEBUF_SIZE)
              || ((v =? 0) && (r_linebuf_len l0 + 1 <? 3))) eqn:Hc.
    + eexists. split; [reflexivity|]. intros _. cbn [r_linebuf_len].
      specialize (H0 Hf). apply orb_true_iff in Hc. destruct Hc as [Hc|Hc].
      * apply Z.ltb_lt in Hc. lia.
      * apply andb_true_iff in Hc. destruct Hc as [_ Hc]. apply Z.ltb_lt in Hc.
        unfold LINEBUF_SIZE. lia.
    + eexists. split; [reflexivity|]. intros Hc'. simpl in Hc'. discriminate.
  - eexists. split; [reflexivity|]. intros Hc. congruence.
Qed.

(** The decoding loop completes whatever it is given: every store lands
    inside [linebuf] and no read is past the bytes counted at entry. *)
Lemma reading_loop_ok (n : nat) (v h : Z) (rx : UARTDriver) (l : reading_locals) :
  (n <= length rx)%nat -> frame_inv l ->
  exists rx' l', reading_loop n v h rx l = Ok (rx', l') /\ frame_inv l'.
Proof.
  revert rx l. induction n as [|n IH]; intros rx l Hn Hinv; simpl.
  - eauto.
  - destruct rx as [|c rx]; simpl in *; [lia|].
    destruct (reading_body_ok v h c l Hinv) as (l1 & -> & H1). simpl.
    apply IH; [lia|exact H1].
Qed.

Lemma reading_init_inv (s : AP_RangeFinder_uLanding) : frame_inv (reading_init s).
Proof.
  intros H. simpl in H. discriminate.
Qed.

(** ** get_reading: the decoding of a prefix *)

Lemma reading_loop_app (v h : Z) (pre rest : list byte) (n : nat) (l : reading_locals) :
  reading_loop (length pre + n) v h (pre ++ rest) l =
  (l' <- reading_fold v h pre l ;; reading_loop n v h rest l').
Proof.
  revert l. induction pre as [|c pre IH]; intros l; simpl.
  - reflexivity.
  - destruct (reading_body v h c l) as [l1|f]; simpl; [apply IH|reflexivity].
Qed.

Lemma reading_loop_all (v h : Z) (bytes : list byte) (l : reading_locals) :
  reading_loop (length bytes) v h bytes l =
  (l' <- reading_fold v h bytes l ;; Ok ([], l')).
Proof.
  pose proof (reading_loop_app v h bytes [] 0 l) as H.
  rewrite Nat.add_0_r, app_nil_r in H. exact H.
Qed.

Lemma reading_fold_app (v h : Z) (pre rest : list byte) (l : reading_locals) :
  reading_fold v h (pre ++ rest) l =
  (l' <- reading_fold v h pre l ;; reading_fold v h rest l').
Proof.
  revert l. induction pre as [|c pre IH]; intros l; simpl.
  - reflexivity.
  - destruct (reading_body v h c l) as [l1|f]; simpl; [apply IH|reflexivity].
Qed.

Lemma reading_fold_ok (v h : Z) (bytes : list byte) (l : reading_locals) :
  frame_inv l -> exists l', reading_fold v h bytes l = Ok l' /\ frame_inv l'.
Proof.
  revert l. induction bytes as [|c bytes IH]; intros l Hinv; simpl.
  - eauto.
  - destruct (reading_body_ok v h c l Hinv) as (l1 & -> & H1). simpl.
    apply IH, H1.
Qed.

(** Outside a frame, a byte that is not the header byte changes nothing. *)
Lemma reading_body_skip (v h : Z) (c : byte) (l : reading_locals) :
  r_hdr_found l = false -> b2z c <> h -> reading_body v h c l = Ok l.
Proof.
  intros Hf Hc. unfold reading_body. apply Z.eqb_neq in Hc. rewrite Hc, Hf.
  simpl. rewrite Hf. reflexivity.
Qed.

Lemma reading_fold_skip (v h : Z) (pre : list byte) (l : reading_locals) :
  r_hdr_found l = false -> Forall (fun c => b2z c <> h) pre ->
  reading_fold v h pre l = Ok l.
Proof.
  intros Hf H. induction H as [|c pre Hc _ IH]; simpl; [reflexivity|].
  rewrite reading_body_skip by assumption. exact IH.
Qed.

(** ** get_reading: one byte at a time *)

(** A header byte seen outside a frame starts a frame at index 0. *)
Lemma reading_body_header (v h : Z) (c : byte) (l : reading_locals) :
  r_hdr_found l = false -> b2z c = h ->
  reading_body v h c l = Ok (pushed (set_frame l true 0) c).
Proof.
  intros Hf Hc. unfold reading_body. rewrite Hc, Z.eqb_refl, Hf.
  cbn [andb negb set_frame r_hdr_found].
  rewrite push_ok by (cbn; unfold LINEBUF_SIZE; lia).
  reflexivity.
Qed.

(** Inside a frame every byte is appended, header-valued or not, and
    nothing is processed before the sixth. *)
Lemma reading_body_collect (v h : Z) (c : byte) (l : reading_locals) :
  r_hdr_found l = true -> 0 <= r_linebuf_len l < LINEBUF_SIZE - 1 ->
  reading_body v h c l = Ok (pushed l c).
Proof.
  intros Hf Hlen. unfold reading_body. rewrite Hf, andb_false_r, Hf.
  rewrite push_ok by lia. cbn [bind r_linebuf_len].
  replace (r_linebuf_len l + 1 <? LINEBUF_SIZE) with true
    by (symmetry; apply Z.ltb_lt; lia).
  reflexivity.
Qed.

(** The sixth byte completes the frame. *)
Lemma reading_body_complete (v h : Z) (c : byte) (l : reading_locals) :
  r_hdr_found l = true -> r_linebuf_len l = LINEBUF_SIZE - 1 ->
  reading_body v h c l = Ok (processed v (pushed l c)).
Proof.
  intros Hf Hlen. unfold reading_body. rewrite Hf, andb_false_r, Hf.
  rewrite push_ok by (unfold LINEBUF_SIZE in *; lia). cbn [bind r_linebuf_len r_linebuf].
  unfold processed, pushed. rewrite Hlen.
  change (LINEBUF_SIZE - 1 + 1 <? LINEBUF_SIZE) with false.
  change (LINEBUF_SIZE - 1 + 1 <? 3) with false.
  rewrite andb_false_r. reflexivity.
Qed.

(** ** get_reading: a whole frame *)

Lemma length_store (lb : list byte) (i : nat) (c : byte) :
  length (store lb i c) = length lb.
Proof.
  revert i. induction lb as [|x lb IH]; intros [|i]; simpl; auto.
Qed.

Lemma firstn_store (lb : list byte) (i : nat) (c : byte) :
  (i < length lb)%nat -> firstn (S i) (store lb i c) = firstn i lb ++ [c].
Proof.
  revert i. induction lb as [|x lb IH]; intros [|i] H; simpl in *; try lia.
  - reflexivity.
  - f_equal. apply IH. lia.
Qed.

(** Six bytes starting with the header byte, met outside a frame, fill
    [linebuf] and are processed once, at the sixth byte. *)
Lemma reading_fold_frame (v h : Z) (c0 c1 c2 c3 c4 c5 : byte) (l : reading_locals) :
  r_hdr_found l = false -> b2z c0 = h -> length (r_linebuf l) = 6%nat ->
  reading_fold v h [c0; c1; c2; c3; c4; c5] l =
  Ok (processed v (collected l [c0; c1; c2; c3; c4; c5])).
Proof.
  intros Hf Hc Hlen. cbn [reading_fold].
  rewrite (reading_body_header v h c0 l Hf Hc). cbn [bind].
  do 4 (rewrite reading_body_collect by (cbn; unfold LINEBUF_SIZE; lia); cbn [bind]).
  rewrite reading_body_complete by reflexivity.
  destruct l as [sum cnt hf lb len fr]. cbn in Hlen.
  destruct lb as [|x0 [|x1 [|x2 [|x3 [|x4 [|x5 [|x6 lb]]]]]]]; try discriminate.
  reflexivity.
Qed.

(** ** get_reading: what the frame buffer held at entry does not matter *)

Lemma reading_body_agree (v h : Z) (c : byte) (l l' : reading_locals) :
  agree l l' ->
  exists m m', reading_body v h c l = Ok m /\ reading_body v h c l' = Ok m' /\ agree m m'.
Proof.
  intros (Hs & Hc & Hfr & Hh & Hl & Hl' & Hin).
  destruct (r_hdr_found l) eqn:Hf.
  - destruct (Hin eq_refl) as (Hlen & Hrange & Hpre). symmetry in Hh.
    assert (Hstore : firstn (S (Z.to_nat (r_linebuf_len l)))
                       (store (r_linebuf l) (Z.to_nat (r_linebuf_len l)) c) =
                     firstn (S (Z.to_nat (r_linebuf_len l)))
                       (store (r_linebuf l') (Z.to_nat (r_linebuf_len l)) c)).
    { unfold LINEBUF_SIZE in Hrange. rewrite !firstn_store by lia. now rewrite Hpre. }
    destruct (Z.eq_dec (r_linebuf_len l) (LINEBUF_SIZE - 1)) as [E|E].
    + rewrite (reading_body_complete v h c l Hf E).
      rewrite (reading_body_complete v h c l' Hh) by congruence.
      do 2 eexists. split; [reflexivity|]. split; [reflexivity|].
      assert (Hsame : store (r_linebuf l) (Z.to_nat (r_linebuf_len l)) c =
                      store (r_linebuf l') (Z.to_nat (r_linebuf_len l)) c).
      { rewrite E in Hstore. change (S (Z.to_nat (LINEBUF_SIZE - 1))) with 6%nat in Hstore.
        rewrite E.
        rewrite <- (firstn_all (store (r_linebuf l) _ c)).
        rewrite <- (firstn_all (store (r_linebuf l') _ c)).
        rewrite !length_store, Hl, Hl'. exact Hstore. }
      unfold processed, pushed, agree. rewrite <- Hlen, Hsame.
      cbn [r_linebuf]. 
      destruct (v =? 0); [|destruct (checksum_ok _)];
        cbn; rewrite ?length_store; repeat split; try congruence; try discriminate.
    + rewrite (reading_body_collect v h c l Hf) by lia.
      rewrite (reading_body_collect v h c l' Hh) by lia.
      do 2 eexists. split; [reflexivity|]. split; [reflexivity|].
      unfold pushed, agree. cbn. rewrite !length_store, <- Hlen.
      repeat split; try congruence; try lia.
      replace (Z.to_nat (r_linebuf_len l + 1)) with (S (Z.to_nat (r_linebuf_len l))) by lia.
      exact Hstore.
  - symmetry in Hh. destruct (Z.eq_dec (b2z c) h) as [E|E].
    + rewrite (reading_body_header v h c l Hf E), (reading_body_header v h c l' Hh E).
      do 2 eexists. split; [reflexivity|]. split; [reflexivity|].
      unfold pushed, agree. cbn. rewrite !length_store.
      repeat split; try congruence; try (unfold LINEBUF_SIZE; lia).
      destruct (r_linebuf l) as [|x lb]; [discriminate|].
      destruct (r_linebuf l') as [|x' lb']; [discriminate|]. reflexivity.
    + rewrite (reading_body_skip v h c l Hf E), (reading_body_skip v h c l' Hh E).
      do 2 eexists. split; [reflexivity|]. split; [reflexivity|].
      unfold agree. rewrite Hf. repeat split; try congruence; discriminate.
Qed.


Lemma reading_loop_agree (n : nat) (v h : Z) (rx : UARTDriver) (l l' : reading_locals) :
  (n <= length rx)%nat -> agree l l' ->
  exists rx' m m', reading_loop n v h rx l = Ok (rx', m) /\
                   reading_loop n v h rx l' = Ok (rx', m') /\ agree m m'.
Proof.
  revert rx l l'. induction n as [|n IH]; intros rx l l' Hn H; simpl.
  - eauto 6.
  - destruct rx as [|c rx]; simpl in *; [lia|].
    destruct (reading_body_agree v h c l l' H) as (m & m' & -> & -> & Hm). simpl.
    apply IH; [lia|exact Hm].
Qed.

(** ** Single-precision arithmetic on integers below 2^24

    [sum] is a [float].  The integers [get_reading] feeds it are below 2^16,
    and as long as their sum stays below 2^24 every operation of the call is
    exact: the additions give the integer sum, the division followed by the
    narrowing gives the integer quotient, and so does the scaling by 2.5.
    The lemmas follow [SpecFloat]'s algorithms: the number of digits of a
    mantissa, the shifts that align and normalise it, the rounding of the
    bits shifted out. *)

(** A positive number of [d] binary digits lies in [2^(d-1), 2^d). *)
Lemma digits_bounds (p : positive) :
  Z.pos p < 2 ^ Z.pos (digits2_pos p) /\ 2 ^ Z.pos (digits2_pos p) <= 2 * Z.pos p.
Proof.
  induction p as [p IH|p IH|]; cbn [digits2_pos].
  - rewrite Pos2Z.inj_succ, Z.pow_succ_r by lia. lia.
  - rewrite Pos2Z.inj_succ, Z.pow_succ_r by lia. lia.
  - split; reflexivity.
Qed.

Lemma digits_unique (p : positive) (d : Z) :
  Z.pos p < 2 ^ d -> 2 ^ d <= 2 * Z.pos p -> Z.pos (digits2_pos p) = d.
Proof.
  intros H1 H2. destruct (digits_bounds p) as [B1 B2].
  destruct (Z.lt_trichotomy (Z.pos (digits2_pos p)) d) as [L|[E|L]]; [|exact E|].
  - assert (2 ^ (Z.pos (digits2_pos p) + 1) <= 2 ^ d) by (apply Z.pow_le_mono_r; lia).
    rewrite Z.pow_add_r in H by lia. lia.
  - assert (d < 0 \/ 0 <= d) as [N|N] by lia.
    + rewrite Z.pow_neg_r in H1 by lia. lia.
    + assert (2 ^ (d + 1) <= 2 ^ Z.pos (digits2_pos p)) by (apply Z.pow_le_mono_r; lia).
      rewrite Z.pow_add_r in H by lia. lia.
Qed.

Lemma iter_xO (m d : positive) : Z.pos (Pos.iter xO m d) = Z.pos m * 2 ^ Z.pos d.
Proof.
  induction d as [|d IH] using Pos.peano_ind.
  - cbn [Pos.iter]. rewrite Z.pow_1_r. lia.
  - rewrite Pos.iter_succ, Pos2Z.inj_succ, Z.pow_succ_r by lia.
    rewrite Pos2Z.inj_xO, IH. ring.
Qed.

Lemma pow2_xO (p : positive) : 2 ^ Z.pos p~0 = 2 ^ Z.pos p * 2 ^ Z.pos p.
Proof.
  rewrite <- Z.pow_add_r by lia. f_equal. lia.
Qed.

Lemma pow2_xI (p : positive) : 2 ^ Z.pos p~1 = 2 * (2 ^ Z.pos p * 2 ^ Z.pos p).
Proof.
  rewrite <- pow2_xO, <- Z.pow_succ_r by lia. reflexivity.
Qed.

Lemma shr_1_double (k : Z) :
  0 <= k -> shr_1 (Build_shr_record (2 * k) false false) = Build_shr_record k false false.
Proof.
  destruct k as [|k|k]; intros H; try reflexivity; lia.
Qed.

(** Shifting out [p] zero bits loses nothing. *)
Lemma shr_exact (p : positive) (m : Z) :
  0 <= m ->
  iter_pos shr_1 p (Build_shr_record (m * 2 ^ Z.pos p) false false) =
  Build_shr_record m false false.
Proof.
  revert m. induction p as [p IH|p IH|]; intros m Hm; cbn [iter_pos];
    try assert (Hp : 0 <= 2 ^ Z.pos p) by (apply Z.pow_nonneg; lia).
  - rewrite pow2_xI.
    replace (m * (2 * (2 ^ Z.pos p * 2 ^ Z.pos p)))
      with (2 * (m * 2 ^ Z.pos p * 2 ^ Z.pos p)) by ring.
    rewrite shr_1_double by (apply Z.mul_nonneg_nonneg; [apply Z.mul_nonneg_nonneg|]; lia).
    rewrite IH by (apply Z.mul_nonneg_nonneg; lia). apply IH, Hm.
  - rewrite pow2_xO, Z.mul_assoc.
    rewrite IH by (apply Z.mul_nonneg_nonneg; lia). apply IH, Hm.
  - rewrite Z.pow_1_r, Z.mul_comm. apply shr_1_double, Hm.
Qed.

Lemma scale_double (m e : Z) : F32.scale (2 * m) e = F32.scale m (e + 1).
Proof.
  unfold F32.scale. destruct (Z.leb_spec 0 e) as [H|H].
  - replace (0 <=? e + 1) with true by (symmetry; apply Z.leb_le; lia).
    rewrite Z.pow_add_r by lia. ring.
  - destruct (Z.leb_spec 0 (e + 1)) as [H1|H1].
    + replace e with (-1) by lia. cbn [Z.add Z.opp Z.pos_sub].
      change (2 ^ 1) with 2. change (2 ^ 0) with 1.
      rewrite Z.mul_comm, Z.div_mul by lia. ring.
    + replace (- e) with (1 + - (e + 1)) by lia.
      rewrite Z.pow_add_r by lia. change (2 ^ 1) with 2.
      apply Z.div_mul_cancel_l; [|lia].
      apply Z.pow_nonzero; lia.
Qed.

Lemma fexp_32 (d : Z) : -125 <= d -> fexp 24 128 d = d - 24.
Proof.
  intros H. unfold fexp, emin. lia.
Qed.

Lemma finish_normal (N : positive) (E : Z) :
  Z.pos (digits2_pos N) = 24 -> -149 <= E <= 104 ->
  finish (Z.pos N) E = S754_finite false N E.
Proof.
  intros HD HE. unfold finish, shr_fexp. cbn [Zdigits2]. rewrite HD.
  rewrite fexp_32 by lia. replace (24 + E - 24 - E) with 0 by lia.
  cbn [shr shr_record_of_loc shr_m].
  replace (E <=? 128 - 24) with true by (symmetry; apply Z.leb_le; lia).
  reflexivity.
Qed.

Lemma finish_carry (E : Z) :
  -149 <= E <= 103 ->
  finish 16777216 E = S754_finite false 8388608 (E + 1).
Proof.
  intros HE. unfold finish, shr_fexp.
  change (Zdigits2 16777216) with 25.
  rewrite fexp_32 by lia. replace (25 + E - 24 - E) with 1 by lia.
  cbn [shr shr_record_of_loc shr_m iter_pos shr_1 orb].
  replace (E + 1 <=? 128 - 24) with true by (symmetry; apply Z.leb_le; lia).
  reflexivity.
Qed.

(** Whether or not rounding has carried, the value is that of [N * 2^E]. *)
Lemma finish_spec (N E : Z) :
  8388608 <= N <= 16777216 -> -149 <= E <= 103 ->
  exists M' E', finish N E = S754_finite false M' E' /\
                F32.scale (Z.pos M') E' = F32.scale N E.
Proof.
  intros HN HE. destruct (Z.eq_dec N 16777216) as [->|Hne].
  - rewrite finish_carry by exact HE. do 2 eexists. split; [reflexivity|].
    rewrite <- scale_double. reflexivity.
  - destruct N as [|N|N]; try lia.
    rewrite finish_normal; [eauto| |lia].
    apply digits_unique.
    + change (2 ^ 24) with 16777216. lia.
    + change (2 ^ 24) with 16777216. lia.
Qed.

Lemma binary_round_aux_finish (mx ex : Z) (lx : location) :
  binary_round_aux 24 128 false mx ex lx =
  let '(mrs, e) := shr_fexp 24 128 mx ex lx in
  finish (round_nearest_even (shr_m mrs) (loc_of_shr_record mrs)) e.
Proof. reflexivity. Qed.

Lemma pow2_pos (e : Z) : 0 <= e -> 0 < 2 ^ e.
Proof. intros H. apply Z.pow_pos_nonneg; lia. Qed.

Lemma digits_shift (m M : positive) (j : Z) :
  0 <= j -> Z.pos m = Z.pos M * 2 ^ j ->
  Z.pos (digits2_pos m) = Z.pos (digits2_pos M) + j.
Proof.
  intros Hj Hm. destruct (digits_bounds M) as [B1 B2].
  pose proof (pow2_pos j Hj) as Hp.
  apply digits_unique; rewrite Z.pow_add_r, Hm by lia; nia.
Qed.

(** A mantissa that is a 24-digit one followed by zeros rounds to it. *)
Lemma binary_round_aux_exact (m M : positive) (e E : Z) :
  Z.pos (digits2_pos M) = 24 -> -149 <= E <= 104 ->
  e <= E -> Z.pos m = Z.pos M * 2 ^ (E - e) ->
  binary_round_aux 24 128 false (Z.pos m) e loc_Exact = S754_finite false M E.
Proof.
  intros HD HE Hle Hm. rewrite binary_round_aux_finish. unfold shr_fexp.
  cbn [Zdigits2]. rewrite (digits_shift m M (E - e)) by (lia || exact Hm).
  rewrite HD, fexp_32 by lia.
  replace (24 + (E - e) + e - 24 - e) with (E - e) by lia.
  destruct (E - e) as [|p|p] eqn:Hs; try lia.
  - cbn [shr shr_record_of_loc shr_m loc_of_shr_record round_nearest_even].
    rewrite Z.pow_0_r, Z.mul_1_r in Hm. injection Hm as ->.
    replace e with E by lia. apply finish_normal; assumption.
  - cbn [shr shr_record_of_loc]. rewrite Hm, shr_exact by lia.
    cbn [shr_m loc_of_shr_record round_nearest_even].
    replace (e + Z.pos p) with E by lia. apply finish_normal; assumption.
Qed.

(** The same for [binary_round], which may also have to shift left. *)
Lemma binary_round_exact (m M : positive) (e E : Z) :
  Z.pos (digits2_pos M) = 24 -> -149 <= E <= 104 ->
  (e <= E /\ Z.pos m = Z.pos M * 2 ^ (E - e)) \/
  (E < e /\ Z.pos M = Z.pos m * 2 ^ (e - E)) ->
  binary_round 24 128 false m e = S754_finite false M E.
Proof.
  intros HD HE H. unfold binary_round, shl_align.
  destruct H as [[Hle Hm]|[Hlt Hm]].
  - rewrite (digits_shift m M (E - e)) by (lia || exact Hm).
    rewrite HD, fexp_32 by lia.
    replace (24 + (E - e) + e - 24 - e) with (E - e) by lia.
    destruct (E - e) as [|p|p] eqn:Hs; try lia.
    + apply binary_round_aux_exact; try assumption. now rewrite Hs.
    + apply binary_round_aux_exact; try assumption. now rewrite Hs.
  - pose proof (digits_shift M m (e - E) ltac:(lia) Hm) as Hd.
    replace (Z.pos (digits2_pos m)) with (24 - (e - E)) by lia.
    rewrite fexp_32 by lia.
    replace (24 - (e - E) + e - 24 - e) with (E - e) by lia.
    destruct (E - e) as [|p|p] eqn:Hs; try lia.
    replace (24 - (e - E) + e - 24) with E by lia.
    assert (HM : Pos.iter xO m p = M).
    { apply Pos2Z.inj. rewrite iter_xO, Hm. do 2 f_equal. lia. }
    rewrite HM. apply binary_round_aux_exact; try assumption; try lia.
    rewrite Z.sub_diag, Z.pow_0_r. lia.
Qed.

(** Integers below 2^24 convert to [float] without rounding. *)
Lemma of_Z_repr (k : Z) : 0 < k < 16777216 -> repr k (F32.of_Z k).
Proof.
  intros Hk. destruct k as [|p|p]; try lia.
  destruct (digits_bounds p) as [B1 B2].
  set (d := Z.pos (digits2_pos p)) in *.
  assert (Hd : 1 <= d <= 24).
  { split; [subst d; lia|].
    destruct (Z.le_gt_cases d 24) as [L|L]; [exact L|].
    assert (2 ^ 25 <= 2 ^ d) by (apply Z.pow_le_mono_r; lia).
    change (2 ^ 25) with 33554432 in H. lia. }
  pose proof (pow2_pos (24 - d) ltac:(lia)) as Hp.
  assert (HM : exists M, Z.pos M = Z.pos p * 2 ^ (24 - d)).
  { exists (Z.to_pos (Z.pos p * 2 ^ (24 - d))). rewrite Z2Pos.id; [reflexivity|nia]. }
  destruct HM as [M HM].
  assert (HDM : Z.pos (digits2_pos M) = 24).
  { rewrite (digits_shift M p (24 - d)) by (lia || exact HM). subst d. lia. }
  exists M, (d - 24). repeat split; try lia.
  - unfold F32.of_Z, binary_normalize, F32.prec, F32.emax.
    apply binary_round_exact; try assumption; try lia.
    destruct (Z.eq_dec d 24) as [E|E].
    + left. split; [lia|]. rewrite E in *. rewrite Z.sub_diag, Z.pow_0_r in *. lia.
    + right. split; [lia|]. rewrite HM. do 2 f_equal. lia.
  - rewrite HM. do 2 f_equal. lia.
Qed.

Lemma shl_align_fst (m : positive) (e e' : Z) :
  e' <= e -> Z.pos (fst (shl_align m e e')) = Z.pos m * 2 ^ (e - e').
Proof.
  intros H. unfold shl_align. destruct (e' - e) as [|p|p] eqn:Hs; try lia.
  - replace (e - e') with 0 by lia. cbn [fst]. rewrite Z.pow_0_r. lia.
  - cbn [fst]. rewrite iter_xO. do 2 f_equal. lia.
Qed.

(** The sum of two such floats is the float of the integer sum. *)
Lemma add_repr (a b : Z) (x y : spec_float) :
  repr a x -> repr b y -> a + b < 16777216 ->
  F32.add x y = F32.of_Z (a + b).
Proof.
  intros (Ma & Ea & -> & HDa & HEa & Ha) (Mb & Eb & -> & HDb & HEb & Hb) Hab.
  assert (Hapos : 0 < a).
  { pose proof (pow2_pos (- Ea) ltac:(lia)). nia. }
  assert (Hbpos : 0 < b).
  { pose proof (pow2_pos (- Eb) ltac:(lia)). nia. }
  destruct (of_Z_repr (a + b) ltac:(lia)) as (M & E & -> & HD & HE & HM).
  unfold F32.add, SFadd, F32.prec, F32.emax. cbn [cond_Zopp].
  set (ez := Z.min Ea Eb).
  assert (Hz : Z.pos (fst (shl_align Ma Ea ez)) + Z.pos (fst (shl_align Mb Eb ez))
               = (a + b) * 2 ^ (- ez)).
  { rewrite !shl_align_fst by (subst ez; lia). rewrite Ha, Hb.
    rewrite <- !Z.mul_assoc, <- !Z.pow_add_r by (subst ez; lia).
    replace (- Ea + (Ea - ez)) with (- ez) by lia.
    replace (- Eb + (Eb - ez)) with (- ez) by lia. ring. }
  cbn [Z.add] in Hz |- *.
  set (z := (fst (shl_align Ma Ea ez) + fst (shl_align Mb Eb ez))%positive) in *.
  cbn [binary_normalize].
  apply binary_round_exact; try assumption; try lia.
  destruct (Z.le_gt_cases ez E) as [L|L].
  - left. split; [exact L|]. rewrite Hz, HM.
    rewrite <- Z.mul_assoc, <- Z.pow_add_r by (subst ez; lia).
    do 2 f_equal. lia.
  - right. split; [lia|]. rewrite Hz, HM.
    rewrite <- Z.mul_assoc, <- Z.pow_add_r by (subst ez; lia).
    do 2 f_equal. lia.
Qed.

Lemma add_of_Z (a b : Z) :
  0 <= a -> 0 <= b -> a + b < 16777216 ->
  F32.add (F32.of_Z a) (F32.of_Z b) = F32.of_Z (a + b).
Proof.
  intros Ha Hb Hab.
  destruct (Z.eq_dec a 0) as [->|Na]; [|destruct (Z.eq_dec b 0) as [->|Nb]].
  - destruct b as [|b|b]; try lia; [reflexivity|].
    destruct (of_Z_repr (Z.pos b) ltac:(lia)) as (M & E & H & _).
    cbn [Z.add]. rewrite H. reflexivity.
  - destruct (of_Z_repr a ltac:(lia)) as (M & E & H & _).
    rewrite Z.add_0_r, H. reflexivity.
  - apply add_repr; try assumption; apply of_Z_repr; lia.
Qed.

Lemma scale_nonpos (m e : Z) : e <= 0 -> F32.scale m e = m / 2 ^ (- e).
Proof.
  intros H. unfold F32.scale. destruct (Z.leb_spec 0 e) as [L|L]; [|reflexivity].
  replace e with 0 by lia. cbn [Z.opp]. rewrite Z.pow_0_r, Z.div_1_r. lia.
Qed.

Lemma rne_cases (m : Z) (l : location) :
  round_nearest_even m l = m \/ round_nearest_even m l = m + 1.
Proof.
  destruct l as [|[| |]]; cbn [round_nearest_even]; auto.
  destruct (Z.even m); auto.
Qed.

(** Rounding the mantissa after one bit has been shifted out: upwards only
    when the bit shifted out was set. *)
Lemma rne_shr_1 (q : positive) (l : location) :
  let mrs := shr_1 (shr_record_of_loc (Z.pos q) l) in
  let N := round_nearest_even (shr_m mrs) (loc_of_shr_record mrs) in
  N = Z.pos q / 2 \/ (N = Z.pos q / 2 + 1 /\ Z.pos q mod 2 = 1).
Proof.
  assert (H0 : forall p, Z.pos p~0 / 2 = Z.pos p).
  { intros p. rewrite Pos2Z.inj_xO, Z.mul_comm. apply Z.div_mul. lia. }
  assert (H1 : forall p, Z.pos p~1 / 2 = Z.pos p /\ Z.pos p~1 mod 2 = 1).
  { intros p. rewrite Pos2Z.inj_xI.
    split; [symmetry; apply (Z.div_unique _ 2 _ 1)|symmetry; apply (Z.mod_unique _ 2 (Z.pos p))]; lia. }
  destruct q as [p|p|].
  - destruct (H1 p) as [Hd Hm]. rewrite Hd, Hm.
    destruct l as [|[| |]]; cbn; try destruct (Z.even (Z.pos p)); try rewrite Pos.add_1_r; auto.
    all: destruct p; cbn; auto.
  - rewrite H0.
    destruct l as [|[| |]]; cbn; auto.
  - destruct l as [|[| |]]; cbn; auto.
Qed.

Lemma shr_record_of_loc_m (m : Z) (l : location) : shr_m (shr_record_of_loc m l) = m.
Proof. destruct l as [|[| |]]; reflexivity. Qed.

Lemma loc_of_shr_record_of_loc (m : Z) (l : location) :
  loc_of_shr_record (shr_record_of_loc m l) = l.
Proof. destruct l as [|[| |]]; reflexivity. Qed.

(** The quotient of two normal mantissas has 24 or 25 digits. *)
Lemma div_core (Ms Mn : positive) (Es En : Z) :
  Z.pos (digits2_pos Ms) = 24 -> Z.pos (digits2_pos Mn) = 24 ->
  -23 <= Es <= 0 -> -23 <= En <= 0 ->
  SFdiv_core_binary 24 128 (Z.pos Ms) Es (Z.pos Mn) En =
  (Z.pos Ms * 2 ^ 24 / Z.pos Mn, Es - En - 24,
   new_location (Z.pos Mn) (Z.pos Ms * 2 ^ 24 mod Z.pos Mn)).
Proof.
  intros HDs HDn HEs HEn. unfold SFdiv_core_binary. cbn [Zdigits2].
  rewrite HDs, HDn, fexp_32 by lia.
  replace (Z.min (24 + Es - (24 + En) - 24) (Es - En)) with (Es - En - 24) by lia.
  replace (Es - En - (Es - En - 24)) with 24 by lia.
  cbv iota beta zeta. rewrite Z.shiftl_mul_pow2 by lia.
  unfold Z.div, Z.modulo.
  destruct (Z.div_eucl (Z.pos Ms * 2 ^ 24) (Z.pos Mn)) as [q r]. reflexivity.
Qed.

(** The arithmetic behind the division: a quotient of integers below 2^24
    is too far from the next integer for rounding to reach it. *)
Section Quotient.
Variables s n P T Mn m' : Z.
Hypothesis Hn : 0 < n.
Hypothesis HP : 0 < P.
Hypothesis HT : 0 < T.
Hypothesis HMn : 0 < Mn < P.
Hypothesis Hm' : m' = s * P.
Hypothesis HnP : Mn * T = n * P.

Lemma quotient_div : m' / Mn / T = s / n.
Proof.
  rewrite Z.div_div by lia. rewrite HnP, Hm'. apply Z.div_mul_cancel_r; lia.
Qed.

Lemma quotient_no_boundary (k : Z) : m' / Mn + 1 = T * k -> False.
Proof.
  intros Hk. pose proof (Z.div_mod m' Mn ltac:(lia)) as Hdm.
  pose proof (Z.mod_pos_bound m' Mn ltac:(lia)) as Hr.
  set (q := m' / Mn) in *. set (R := m' mod Mn) in *.
  assert (E : P * (n * k - s) = Mn - R).
  { replace q with (T * k - 1) in Hdm by lia.
    assert (Mn * T * k = n * P * k) by (rewrite HnP; ring).
    rewrite Hm' in Hdm. lia. }
  destruct (Z.le_gt_cases (n * k - s) 0) as [L|L].
  - assert (P * (n * k - s) <= 0) by (apply Z.mul_nonneg_nonpos; lia). lia.
  - assert (P * 1 <= P * (n * k - s)) by (apply Z.mul_le_mono_nonneg_l; lia). lia.
Qed.

Lemma div_succ_same (a : Z) :
  (forall k, a + 1 = T * k -> False) -> (a + 1) / T = a / T.
Proof.
  intros H. pose proof (Z.div_mod (a + 1) T ltac:(lia)) as Hdm.
  pose proof (Z.mod_pos_bound (a + 1) T ltac:(lia)) as Hr.
  destruct (Z.eq_dec ((a + 1) mod T) 0) as [E|E].
  - exfalso. apply (H ((a + 1) / T)). lia.
  - apply (Z.div_unique a T _ ((a + 1) mod T - 1)); lia.
Qed.

Lemma quotient_round_24 (N : Z) :
  N = m' / Mn \/ N = m' / Mn + 1 -> N / T = s / n.
Proof.
  intros [->| ->].
  - apply quotient_div.
  - rewrite div_succ_same; [apply quotient_div|apply quotient_no_boundary].
Qed.

Lemma quotient_round_25 (T' N : Z) :
  T = 2 * T' ->
  N = m' / Mn / 2 \/ (N = m' / Mn / 2 + 1 /\ (m' / Mn) mod 2 = 1) ->
  N / T' = s / n.
Proof.
  intros HT' HN. rewrite <- quotient_div.
  assert (Hhalf : m' / Mn / T = m' / Mn / 2 / T').
  { rewrite HT'. symmetry. apply Z.div_div; lia. }
  rewrite Hhalf. destruct HN as [->|[-> Hodd]]; [reflexivity|].
  pose proof (Z.div_mod (m' / Mn) 2 ltac:(lia)) as Hq.
  set (p := m' / Mn / 2) in *.
  pose proof (Z.div_mod (p + 1) T' ltac:(lia)) as Hdm.
  pose proof (Z.mod_pos_bound (p + 1) T' ltac:(lia)) as Hr.
  destruct (Z.eq_dec ((p + 1) mod T') 0) as [E|E].
  - exfalso. apply (quotient_no_boundary ((p + 1) / T')). lia.
  - apply (Z.div_unique p T' _ ((p + 1) mod T' - 1)); lia.
Qed.
End Quotient.

Lemma trunc_finite (M : positive) (E : Z) :
  F32.trunc (S754_finite false M E) = Some (F32.scale (Z.pos M) E).
Proof. reflexivity. Qed.

(** Dividing and dropping the fraction gives the integer quotient. *)
Lemma div_repr (s n : Z) (x y : spec_float) :
  repr s x -> repr n y -> F32.trunc (F32.div x y) = Some (s / n).
Proof.
  intros (Ms & Es & -> & HDs & HEs & Hs) (Mn & En & -> & HDn & HEn & Hn).
  unfold F32.div, SFdiv, F32.prec, F32.emax. rewrite div_core by assumption.
  cbv iota beta. cbn [xorb].
  destruct (digits_bounds Ms) as [Bs1 Bs2]. destruct (digits_bounds Mn) as [Bn1 Bn2].
  rewrite HDs in Bs1, Bs2. rewrite HDn in Bn1, Bn2.
  change (2 ^ 24) with 16777216 in *.
  set (m' := Z.pos Ms * 16777216).
  pose proof (pow2_pos (24 - Es) ltac:(lia)) as HP.
  pose proof (pow2_pos (- Es) ltac:(lia)) as HPs.
  pose proof (pow2_pos (- En) ltac:(lia)) as HPn.
  assert (HP24 : 16777216 <= 2 ^ (24 - Es)).
  { change 16777216 with (2 ^ 24). apply Z.pow_le_mono_r; lia. }
  assert (Hspos : 0 < s) by nia.
  assert (Hnpos : 0 < n) by nia.
  assert (Hm' : m' = s * 2 ^ (24 - Es)).
  { subst m'. rewrite Hs. replace (24 - Es) with (- Es + 24) by lia.
    rewrite Z.pow_add_r by lia. change (2 ^ 24) with 16777216. ring. }
  assert (Hq1 : 8388608 <= m' / Z.pos Mn).
  { apply Z.div_le_lower_bound; subst m'; lia. }
  assert (Hq2 : m' / Z.pos Mn < 33554432).
  { apply Z.div_lt_upper_bound; subst m'; lia. }
  destruct (m' / Z.pos Mn) as [|q|q] eqn:Hq; try lia.
  rewrite binary_round_aux_finish. unfold shr_fexp. cbn [Zdigits2].
  destruct (Z.lt_ge_cases (Z.pos q) 16777216) as [Hlt|Hge].
  - (* the quotient has 24 digits *)
    assert (HDq : Z.pos (digits2_pos q) = 24).
    { apply digits_unique; change (2 ^ 24) with 16777216; lia. }
    rewrite HDq, fexp_32 by lia.
    replace (24 + (Es - En - 24) - 24 - (Es - En - 24)) with 0 by lia.
    cbn [shr]. rewrite shr_record_of_loc_m, loc_of_shr_record_of_loc.
    set (N := round_nearest_even (Z.pos q) _).
    assert (HN : N = Z.pos q \/ N = Z.pos q + 1) by apply rne_cases.
    destruct (finish_spec N (Es - En - 24) ltac:(lia) ltac:(lia)) as (M' & E' & -> & Hv).
    rewrite trunc_finite, Hv, scale_nonpos by lia. f_equal.
    rewrite <- Hq in HN.
    apply (quotient_round_24 s n (2 ^ (24 - Es)) (2 ^ (- (Es - En - 24))) (Z.pos Mn) m');
      try assumption; try lia; try (apply pow2_pos; lia).
    rewrite Hn, <- Z.mul_assoc, <- Z.pow_add_r by lia. do 2 f_equal. lia.
  - (* the quotient has 25 digits *)
    assert (HDq : Z.pos (digits2_pos q) = 25).
    { apply digits_unique; change (2 ^ 25) with 33554432; lia. }
    rewrite HDq, fexp_32 by lia.
    replace (25 + (Es - En - 24) - 24 - (Es - En - 24)) with 1 by lia.
    cbn [shr iter_pos].
    pose proof (rne_shr_1 q (new_location (Z.pos Mn) (m' mod Z.pos Mn))) as HN.
    cbv zeta in HN.
    set (N := round_nearest_even _ _) in *.
    assert (Hhalf : 8388608 <= Z.pos q / 2 < 16777216).
    { split; [apply Z.div_le_lower_bound|apply Z.div_lt_upper_bound]; lia. }
    destruct (finish_spec N (Es - En - 24 + 1) ltac:(lia) ltac:(lia)) as (M' & E' & -> & Hv).
    rewrite trunc_finite, Hv, scale_nonpos by lia. f_equal.
    rewrite <- Hq in HN.
    apply (quotient_round_25 s n (2 ^ (24 - Es)) (2 ^ (- (Es - En - 24))) (Z.pos Mn) m');
      try assumption; try lia; try (apply pow2_pos; lia).
    + rewrite Hn, <- Z.mul_assoc, <- Z.pow_add_r by lia. do 2 f_equal. lia.
    + rewrite <- Z.pow_succ_r by lia. f_equal. lia.
Qed.

Lemma div_of_Z (s n : Z) :
  0 <= s < 16777216 -> 0 < n < 16777216 ->
  F32.trunc (F32.div (F32.of_Z s) (F32.of_Z n)) = Some (s / n).
Proof.
  intros Hs Hn. destruct (of_Z_repr n Hn) as (Mn & En & Hy & Hrest).
  destruct (Z.eq_dec s 0) as [->|Ns].
  - rewrite Hy. reflexivity.
  - apply div_repr; [apply of_Z_repr; lia|].
    exists Mn, En. split; assumption.
Qed.

(** [reading_cm *= 2.5f] gives the integer part of 5/2 times the value. *)
Lemma mul_two_and_a_half (m : Z) :
  0 <= m -> 5 * m < 16777216 ->
  F32.trunc (F32.mul (F32.of_Z m) F32.two_and_a_half) = Some (5 * m / 2).
Proof.
  intros Hm H5. destruct (Z.eq_dec m 0) as [->|Nm]; [reflexivity|].
  destruct (of_Z_repr m ltac:(lia)) as (M & E & -> & HD & HE & HM).
  destruct (of_Z_repr (5 * m) ltac:(lia)) as (M5 & E5 & _ & HD5 & HE5 & HM5).
  change F32.two_and_a_half with (S754_finite false 10485760 (-22)).
  unfold F32.mul, SFmul, F32.prec, F32.emax. cbn [xorb].
  pose proof (pow2_pos (- E) ltac:(lia)) as HP.
  pose proof (pow2_pos (- E5) ltac:(lia)) as HP5.
  assert (Hle : E <= E5).
  { destruct (Z.le_gt_cases E E5) as [L|L]; [exact L|exfalso].
    assert (2 * 2 ^ (- E) <= 2 ^ (- E5)).
    { rewrite <- Z.pow_succ_r by lia. apply Z.pow_le_mono_r; lia. }
    destruct (digits_bounds M) as [B1 B2]. destruct (digits_bounds M5) as [B3 B4].
    rewrite HD in B1, B2. rewrite HD5 in B3, B4. nia. }
  rewrite (binary_round_aux_exact (M * 10485760) M5 (E + -22) (E5 - 1));
    try assumption; try lia.
  - rewrite trunc_finite, scale_nonpos by lia. f_equal. rewrite HM5.
    replace (- (E5 - 1)) with (- E5 + 1) by lia.
    rewrite Z.pow_add_r by lia. change (2 ^ 1) with 2.
    rewrite Z.mul_comm with (n := 2 ^ (- E5)).
    apply Z.div_mul_cancel_r; lia.
  - rewrite Pos2Z.inj_mul, HM, HM5.
    rewrite <- (Z.mul_assoc (5 * m)), <- Z.pow_add_r by lia.
    replace (- E5 + (E5 - 1 - (E + -22))) with (- E + 21) by lia.
    rewrite Z.pow_add_r by lia. change (2 ^ 21) with 2097152.
    change (Z.pos 10485760) with (5 * 2097152). ring.
Qed.

(** [reading_cm = sum / count], and the scaling by [2.5f] under version 0,
    on a sum that is exact. *)
Lemma average_exact (v S cnt : Z) :
  0 <= S < 16777216 -> 0 < cnt < 16777216 ->
  S / cnt <= (if v =? 0 then 26214 else 65535) ->
  average v (F32.of_Z S) cnt = Ok (if v =? 0 then 5 * (S / cnt) / 2 else S / cnt).
Proof.
  intros HS Hc Hq. unfold average, F32.to_uint16.
  rewrite div_of_Z by assumption.
  assert (H0 : 0 <= S / cnt) by (apply Z.div_pos; lia).
  assert (H1 : S / cnt <= 65535) by (destruct (v =? 0); lia).
  replace ((0 <=? S / cnt) && (S / cnt <=? 65535)) with true
    by (symmetry; apply andb_true_intro; split; apply Z.leb_le; lia).
  cbn [bind]. destruct (v =? 0); [|reflexivity].
  rewrite mul_two_and_a_half by lia.
  assert (0 <= 5 * (S / cnt) / 2) by (apply Z.div_pos; lia).
  assert (5 * (S / cnt) / 2 <= 65535).
  { apply Z.div_le_upper_bound; lia. }
  replace ((0 <=? 5 * (S / cnt) / 2) && (5 * (S / cnt) / 2 <=? 65535)) with true
    by (symmetry; apply andb_true_intro; split; apply Z.leb_le; lia).
  reflexivity.
Qed.

(** ** get_reading: what the sum and the count are made of *)

Lemma land_127_range (x : Z) : 0 <= Z.land x 127 <= 127.
Proof.
  change 127 with (Z.ones 7) at 1 2. rewrite Z.land_ones by lia.
  pose proof (Z.mod_pos_bound x (2 ^ 7) ltac:(reflexivity)).
  change (2 ^ 7) with 128 in *. lia.
Qed.

Lemma parse_v0_range (lb : list byte) : 0 <= parse_v0 lb <= 16383.
Proof.
  unfold parse_v0.
  pose proof (land_127_range (linebuf_at lb 2)).
  pose proof (land_127_range (linebuf_at lb 1)). lia.
Qed.

Lemma parse_v1_range (lb : list byte) : 0 <= parse_v1 lb <= 65535.
Proof.
  unfold parse_v1, linebuf_at.
  pose proof (b2z_range (nth 3 lb x00)). pose proof (b2z_range (nth 2 lb x00)). lia.
Qed.

Lemma total_app (a b : list Z) : total (a ++ b) = total a + total b.
Proof.
  unfold total in *. induction a as [|x a IH]; cbn [fold_right app]; lia.
Qed.

Lemma total_nonneg (v : Z) (frames : list Z) :
  Forall (fun raw => 0 <= raw <= raw_max v) frames -> 0 <= total frames.
Proof.
  unfold total. induction 1 as [|x l Hx _ IH]; cbn [fold_right]; lia.
Qed.

Lemma total_le (v : Z) (frames : list Z) :
  Forall (fun raw => 0 <= raw <= raw_max v) frames ->
  total frames <= raw_max v * Z.of_nat (length frames).
Proof.
  unfold total. induction 1 as [|x l Hx _ IH]; cbn [fold_right length]; lia.
Qed.

(** One iteration either leaves the accumulator alone or accepts one frame. *)
Lemma reading_body_frames (v h : Z) (c : byte) (l l' : reading_locals) :
  reading_body v h c l = Ok l' ->
  (r_frames l' = r_frames l /\ r_sum l' = r_sum l /\ r_count l' = r_count l) \/
  (exists raw, 0 <= raw <= raw_max v /\
     r_frames l' = r_frames l ++ [raw] /\
     r_sum l' = F32.add (r_sum l) (F32.of_Z raw) /\
     r_count l' = to_uint16 (r_count l + 1)).
Proof.
  unfold reading_body, push, linebuf_store, raw_max.
  destruct ((b2z c =? h) && negb (r_hdr_found l)); cbn [set_frame r_hdr_found r_linebuf
    r_linebuf_len r_sum r_count r_frames];
  repeat match goal with
  | |- context [if ?b then _ else _] => destruct b eqn:?; cbn [bind set_frame accumulate
      r_hdr_found r_linebuf r_linebuf_len r_sum r_count r_frames]
  end;
  intros H; inversion H; subst; cbn; auto;
  right; eexists; (split; [|repeat split; reflexivity]);
  first [apply parse_v0_range | apply parse_v1_range].
Qed.

(** A run of the loop body only ever appends frames, at most one a byte. *)
Lemma reading_fold_frames (v h : Z) (bytes : list byte) (l l' : reading_locals) :
  reading_fold v h bytes l = Ok l' ->
  exists ext, r_frames l' = r_frames l ++ ext /\
              Forall (fun raw => 0 <= raw <= raw_max v) ext /\
              (length ext <= length bytes)%nat.
Proof.
  revert l. induction bytes as [|c bytes IH]; intros l H; cbn [reading_fold] in H.
  - inversion H; subst. exists []. rewrite app_nil_r. repeat split; auto.
  - destruct (reading_body v h c l) as [l1|f] eqn:Hb; [|discriminate]. cbn [bind] in H.
    destruct (IH l1 H) as (ext & He & Hf & Hl).
    destruct (reading_body_frames v h c l l1 Hb) as [(Hfr & _)|(raw & Hr & Hfr & _)].
    + exists ext. rewrite He, Hfr. repeat split; auto. cbn [length]. lia.
    + exists (raw :: ext). rewrite He, Hfr, <- app_assoc. repeat split; auto.
      cbn [length]. lia.
Qed.

(** As long as the sum of the accepted frames stays below 2^24, [sum] is
    that sum exactly, and [count] is their number. *)
Lemma reading_fold_exact (v h : Z) (bytes : list byte) (l l' : reading_locals) :
  reading_fold v h bytes l = Ok l' ->
  exact_sum v l ->
  total (r_frames l') < 16777216 ->
  Z.of_nat (length (r_frames l)) + Z.of_nat (length bytes) < 65536 ->
  exact_sum v l'.
Proof.
  revert l. induction bytes as [|c bytes IH]; intros l H Hex Htot Hlen;
    cbn [reading_fold] in H.
  - inversion H; subst. exact Hex.
  - destruct (reading_body v h c l) as [l1|f] eqn:Hb; [|discriminate]. cbn [bind] in H.
    cbn [length] in Hlen.
    destruct (reading_fold_frames v h bytes l1 l' H) as (ext & He & Hf & _).
    destruct Hex as (Hsum & Hcnt & Hall).
    destruct (reading_body_frames v h c l l1 Hb)
      as [(Hfr & Hs & Hc)|(raw & Hr & Hfr & Hs & Hc)].
    + apply (IH l1 H); [|exact Htot|rewrite Hfr; lia].
      unfold exact_sum. rewrite Hfr, Hs, Hc. auto.
    + assert (Hall1 : Forall (fun raw => 0 <= raw <= raw_max v) (r_frames l1)).
      { rewrite Hfr. apply Forall_app. split; [exact Hall|]. constructor; auto. }
      assert (Hlen1 : length (r_frames l1) = S (length (r_frames l))).
      { rewrite Hfr, length_app. cbn [length]. lia. }
      apply (IH l1 H); [|exact Htot|lia].
      unfold exact_sum. split; [|split; [|exact Hall1]].
      * rewrite Hs, Hsum, Hfr, total_app. unfold total at 3. cbn [fold_right].
        rewrite Z.add_0_r. apply add_of_Z; [eapply total_nonneg; eassumption|lia|].
        rewrite He, total_app in Htot. rewrite Hfr, total_app in Htot.
        unfold total at 2 in Htot. cbn [fold_right] in Htot.
        pose proof (total_nonneg v ext Hf). lia.
      * rewrite Hc, Hcnt, Hlen1. unfold to_uint16. rewrite Z.mod_small; lia.
Qed.

(** The loop as the run of its body over the bytes it reads. *)
Lemma reading_loop_firstn (n : nat) (v h : Z) (rx : UARTDriver) (l : reading_locals) :
  (n <= length rx)%nat ->
  reading_loop n v h rx l =
  (l' <- reading_fold v h (firstn n rx) l ;; Ok (skipn n rx, l')).
Proof.
  intros Hn. pose proof (reading_loop_app v h (firstn n rx) (skipn n rx) 0 l) as H.
  rewrite firstn_skipn, length_firstn, Nat.min_l, Nat.add_0_r in H by exact Hn.
  exact H.
Qed.

(** ** detect_version and get_reading as a whole *)

Lemma detect_version_known (s : AP_RangeFinder_uLanding) :
  _version_known s = true -> detect_version s = Ok (s, true).
Proof.
  intros H. unfold detect_version. rewrite H. reflexivity.
Qed.

(** [detect_version] always returns; it touches nothing but the port and
    the three version members, and those only when it resolves. *)
Lemma detect_version_spec (s : AP_RangeFinder_uLanding) :
  exists s' b, detect_version s = Ok (s', b) /\
    (uart s = None <-> uart s' = None) /\
    linebuf s' = linebuf s /\ linebuf_len s' = linebuf_len s /\
    last_reading_ms s' = last_reading_ms s /\ distance_cm s' = distance_cm s /\
    status s' = status s /\
    (b = true -> _version_known s' = true) /\
    (_version_known s = true -> s' = s /\ b = true).
Proof.
  unfold detect_version. destruct (_version_known s) eqn:Hk.
  - exists s, true. repeat split; auto.
  - destruct (uart s) as [rx|] eqn:Hu.
    + destruct (detect_loop_ok _ rx detect_init (nbytes_le rx)) as (rx' & found & ->).
      cbn [bind]. destruct found as [[v h]|]; do 2 eexists;
        (split; [reflexivity|]); cbn; repeat split; try congruence; try discriminate.
    + exists s, false. repeat split; auto; discriminate.
Qed.

Lemma detect_version_true (s s' : AP_RangeFinder_uLanding) :
  detect_version s = Ok (s', true) -> _version_known s' = true.
Proof.
  intros H. destruct (detect_version_spec s) as (s1 & b & H1 & _ & _ & _ & _ & _ & _ & Hb & _).
  rewrite H in H1. inversion H1; subst. auto.
Qed.

(** What a call does once the dialect is known. *)
Lemma get_reading_known (s : AP_RangeFinder_uLanding) (rx : UARTDriver) (r : Z) :
  _version_known s = true -> uart s = Some rx ->
  get_reading s r =
  ('(rx', l) <- reading_loop (Z.to_nat (to_int16 (available rx))) (_version s) (_header s)
                  rx (reading_init s) ;;
   let s' := set_linebuf (set_uart s (Some rx')) (r_linebuf l) (r_linebuf_len l) in
   if r_count l =? 0 then Ok (s', false, r)
   else cm <- average (_version s) (r_sum l) (r_count l) ;; Ok (s', true, cm)).
Proof.
  intros Hk Hu. unfold get_reading. rewrite Hu, (detect_version_known s Hk).
  cbn [bind negb]. unfold uart_queue. rewrite Hu. reflexivity.
Qed.

(** A call that has to resolve the dialect first goes on as a call on the
    resolved instance. *)
Lemma get_reading_detect (s s1 : AP_RangeFinder_uLanding) (r : Z) :
  uart s <> None -> detect_version s = Ok (s1, true) ->
  get_reading s r = get_reading s1 r.
Proof.
  intros Hu Hd. pose proof (detect_version_true s s1 Hd) as Hk.
  destruct (detect_version_spec s) as (s' & b & H1 & Hnull & _).
  rewrite Hd in H1. inversion H1; subst s' b.
  unfold get_reading at 1 2. rewrite Hd, (detect_version_known s1 Hk).
  destruct (uart s) as [rx|]; [|congruence].
  destruct (uart s1) as [rx1|] eqn:Hu1; [reflexivity|].
  exfalso. destruct Hnull as [_ Hn]. specialize (Hn eq_refl). discriminate.
Qed.

Lemma decoded_frames_detect (s s1 : AP_RangeFinder_uLanding) :
  uart s <> None -> detect_version s = Ok (s1, true) ->
  decoded_frames s = decoded_frames s1.
Proof.
  intros Hu Hd. pose proof (detect_version_true s s1 Hd) as Hk.
  destruct (detect_version_spec s) as (s' & b & H1 & Hnull & _).
  rewrite Hd in H1. inversion H1; subst s' b.
  unfold decoded_frames at 1 2. rewrite Hd, (detect_version_known s1 Hk).
  destruct (uart s) as [rx|]; [|congruence].
  destruct (uart s1) as [rx1|] eqn:Hu1; [reflexivity|].
  exfalso. destruct Hnull as [_ Hn]. specialize (Hn eq_refl). discriminate.
Qed.

(** The locals at the end of the loop of a call on a resolved instance. *)
Lemma reading_loop_known (s : AP_RangeFinder_uLanding) (rx : UARTDriver) :
  exists l,
    reading_loop (Z.to_nat (to_int16 (available rx))) (_version s) (_header s)
      rx (reading_init s)
    = Ok (skipn (Z.to_nat (to_int16 (available rx))) rx, l) /\
    reading_fold (_version s) (_header s)
      (firstn (Z.to_nat (to_int16 (available rx))) rx) (reading_init s) = Ok l.
Proof.
  rewrite reading_loop_firstn by apply nbytes_le.
  destruct (reading_fold_ok (_version s) (_header s)
              (firstn (Z.to_nat (to_int16 (available rx))) rx) (reading_init s)
              (reading_init_inv s)) as (l & Hl & _).
  exists l. rewrite Hl. split; reflexivity.
Qed.

Lemma decoded_frames_known (s : AP_RangeFinder_uLanding) (rx : UARTDriver) (l : reading_locals) :
  _version_known s = true -> uart s = Some rx ->
  reading_fold (_version s) (_header s)
    (firstn (Z.to_nat (to_int16 (available rx))) rx) (reading_init s) = Ok l ->
  decoded_frames s = r_frames l.
Proof.
  intros Hk Hu Hl. unfold decoded_frames.
  rewrite Hu, (detect_version_known s Hk). unfold uart_queue. rewrite Hu.
  rewrite reading_loop_firstn by apply nbytes_le. rewrite Hl. reflexivity.
Qed.

Lemma reading_init_exact (v : Z) (s : AP_RangeFinder_uLanding) :
  exact_sum v (reading_init s).
Proof.
  repeat split. constructor.
Qed.

(** A call on a resolved instance, told by the frames it accepts: none and
    it returns false; some, with a sum below 2^24, and it returns the
    integer mean, scaled under version 0. *)
Lemma get_reading_frames (s : AP_RangeFinder_uLanding) (r : Z) :
  _version_known s = true -> uart s <> None ->
  total (decoded_frames s) < 16777216 ->
  outcome (get_reading s r) =
  match decoded_frames s with
  | [] => Ok (false, r)
  | _ :: _ => Ok (true, scaled (_version s) (mean (decoded_frames s)))
  end.
Proof.
  intros Hk Hu Htot. destruct (uart s) as [rx|] eqn:Hrx; [clear Hu|congruence].
  destruct (reading_loop_known s rx) as (l & Hloop & Hfold).
  rewrite (decoded_frames_known s rx l Hk Hrx Hfold) in *.
  rewrite (get_reading_known s rx r Hk Hrx), Hloop. cbn [bind].
  assert (Hlen : Z.of_nat (length (firstn (Z.to_nat (to_int16 (available rx))) rx)) <= 32767).
  { rewrite length_firstn. unfold available, to_int16.
    pose proof (Z.mod_pos_bound (Z.of_nat (length rx) + 32768) 65536 ltac:(lia)). lia. }
  destruct (reading_fold_exact _ _ _ _ l Hfold (reading_init_exact _ s) Htot)
    as (Hsum & Hcnt & Hall).
  { cbn [reading_init r_frames length]. lia. }
  destruct (reading_fold_frames _ _ _ _ l Hfold) as (ext & He & _ & Hn).
  cbn [reading_init r_frames app] in He.
  assert (Hcount : Z.of_nat (length (r_frames l)) <= 32767) by (rewrite He; lia).
  destruct (r_frames l) as [|raw frames] eqn:Hfr.
  - rewrite Hcnt. reflexivity.
  - rewrite Hcnt. cbn [length] in *.
    replace (Z.of_nat (S (length frames)) =? 0) with false by (symmetry; apply Z.eqb_neq; lia).
    rewrite Hsum.
    pose proof (total_nonneg _ _ Hall) as Hnn. pose proof (total_le _ _ Hall) as Hle.
    cbn [length] in Hle.
    rewrite average_exact; [reflexivity|lia|lia|].
    unfold raw_max in Hle.
    destruct (_version s =? 0); apply Z.div_le_upper_bound; lia.
Qed.

(** ** The driver over any sequence of calls *)

Lemma to_uint16_returns (x : spec_float) :
  returns_unless_narrowing (F32.to_uint16 x) (fun _ => True).
Proof.
  unfold F32.to_uint16. destruct (F32.trunc x) as [z|]; [|reflexivity].
  destruct ((0 <=? z) && (z <=? 65535)); cbn; auto.
Qed.

Lemma average_returns (v : Z) (sum : spec_float) (cnt : Z) :
  returns_unless_narrowing (average v sum cnt) (fun _ => True).
Proof.
  unfold average.
  pose proof (to_uint16_returns (F32.div sum (F32.of_Z cnt))) as H.
  destruct (F32.to_uint16 (F32.div sum (F32.of_Z cnt))) as [cm|f]; cbn [bind]; [|exact H].
  destruct (v =? 0); [apply to_uint16_returns|exact I].
Qed.

(** [get_reading] returns from every state, whatever the frame buffer and
    its index hold at entry; the dialect, once known, is left as it is. *)
Lemma get_reading_returns (s : AP_RangeFinder_uLanding) (r : Z) :
  returns_unless_narrowing (get_reading s r)
    (fun '(s', _, _) =>
       (_version_known s = true -> latch s' = latch s) /\
       last_reading_ms s' = last_reading_ms s /\ status s' = status s).
Proof.
  unfold get_reading. destruct (uart s) as [rx|] eqn:Hu; [|cbn; auto].
  destruct (detect_version_spec s)
    as (s1 & b & -> & _ & _ & _ & Hms & _ & Hst & _ & Hk).
  cbn [bind]. destruct b; cbn [negb].
  - destruct (reading_loop_ok (Z.to_nat (to_int16 (available (uart_queue s1))))
                (_version s1) (_header s1) (uart_queue s1) (reading_init s1)
                (nbytes_le _) (reading_init_inv s1)) as (rx' & l & -> & _).
    cbn [bind]. destruct (r_count l =? 0).
    + cbn. repeat split; try assumption. intros H. destruct (Hk H) as [-> _]. reflexivity.
    + pose proof (average_returns (_version s1) (r_sum l) (r_count l)) as Ha.
      cbn [set_linebuf set_uart _version] in *.
      destruct (average (_version s1) (r_sum l) (r_count l)) as [cm|f]; cbn in *; auto.
      repeat split; try assumption. intros H. destruct (Hk H) as [-> _]. reflexivity.
  - cbn. repeat split; try assumption. intros H. destruct (Hk H) as [_ E]. discriminate.
Qed.

Lemma step_returns (us : Z -> RangeFinder_Status) (e : event) (s : AP_RangeFinder_uLanding) :
  returns_unless_narrowing (step us e s)
    (fun s' => _version_known s = true -> latch s' = latch s).
Proof.
  destruct e as [bytes| | |now]; cbn [step].
  - cbn. auto.
  - destruct (detect_version_spec s) as (s1 & b & -> & _ & _ & _ & _ & _ & _ & _ & Hk).
    cbn. intros H. destruct (Hk H) as [-> _]. reflexivity.
  - pose proof (get_reading_returns s (distance_cm s)) as H.
    destruct (get_reading s (distance_cm s)) as [[[s1 ok] cm]|f]; cbn in *; tauto.
  - unfold update. pose proof (get_reading_returns s (distance_cm s)) as H.
    destruct (get_reading s (distance_cm s)) as [[[s1 ok] cm]|f]; cbn in *; [|exact H].
    destruct ok; [|destruct (_ >? _)]; cbn; tauto.
Qed.

Lemma run_returns (us : Z -> RangeFinder_Status) (es : list event)
  (s : AP_RangeFinder_uLanding) :
  returns_unless_narrowing (run us es s)
    (fun s' => _version_known s = true -> latch s' = latch s).
Proof.
  revert s. induction es as [|e es IH]; intros s; cbn [run].
  - cbn. auto.
  - pose proof (step_returns us e s) as He.
    destruct (step us e s) as [s1|f]; cbn [bind returns_unless_narrowing] in *; [|exact He].
    specialize (IH s1). destruct (run us es s1) as [s2|f]; cbn in *; [|exact IH].
    intros H. specialize (He H). rewrite <- He. apply IH.
    unfold latch in He. congruence.
Qed.

Lemma returns_in_bounds {A : Type} (r : result A) (P : A -> Prop) :
  returns_unless_narrowing r P -> stores_in_bounds r.
Proof.
  destruct r as [a|f]; cbn; [auto|]. intros ->. exact I.
Qed.

(** C10. For every input byte sequence and every sequence of calls, each
    store [linebuf[linebuf_len++] = c] happens at an index below the
    capacity of the frame buffer: whatever [linebuf_len] holds when a call
    starts, the loop of [get_reading] keeps the index inside the buffer
    while a frame is in progress and completes without a store out of
    bounds, in a single call and along every run of the driver. *)
Theorem linebuf_never_overrun (us : Z -> RangeFinder_Status) (es : list event)
  (s : AP_RangeFinder_uLanding) (bytes : list byte) (r : Z) :
  (exists l, reading_fold (_version s) (_header s) bytes (reading_init s) = Ok l /\
             frame_inv l) /\
  stores_in_bounds (get_reading s r) /\
  stores_in_bounds (run us es s).
Proof.
  split; [|split].
  - apply reading_fold_ok, reading_init_inv.
  - eapply returns_in_bounds, get_reading_returns.
  - eapply returns_in_bounds, run_returns.
Qed.

(** C4. The resolved dialect is write-once: after a call of
    [detect_version] has returned true, whatever calls follow and whatever
    bytes arrive, [detect_version] returns true at once without touching the
    port, and the stored version and header byte are what they were. *)
Theorem version_latched (us : Z -> RangeFinder_Status) (es : list event)
  (s0 s : AP_RangeFinder_uLanding) :
  detect_version s0 = Ok (s, true) ->
  returns_unless_narrowing (run us es s)
    (fun s' => detect_version s' = Ok (s', true) /\
               _version s' = _version s /\ _header s' = _header s).
Proof.
  intros Hd. pose proof (detect_version_true s0 s Hd) as Hk.
  pose proof (run_returns us es s) as H.
  destruct (run us es s) as [s'|f]; cbn in *; [|exact H].
  specialize (H Hk). unfold latch in H. inversion H as [[H1 H2 H3]].
  split; [|auto]. apply detect_version_known. congruence.
Qed.

Lemma version_latched_witness :
  detect_version (fresh [xfe; x01]) = Ok (resolved 1 254 [], true) /\
  returns_unless_narrowing
    (run (fun _ => RangeFinder_Good)
       [Receive [xfe; x02; x03; x04; x05; x0e]; CallUpdate 20;
        Receive [x48; x00; x00; x48]; CallDetectVersion; CallGetReading]
       (resolved 1 254 []))
    (fun s' => detect_version s' = Ok (s', true) /\
               _version s' = _version (resolved 1 254 []) /\
               _header s' = _header (resolved 1 254 [])).
Proof.
  split; [reflexivity|].
  apply (version_latched _ _ (fresh [xfe; x01])). reflexivity.
Defined.

(** A run over two polls: the bytes of a legacy sensor that arrive after
    the dialect was resolved to ChecksummedV1 change nothing in it. *)
Example version_latched_run :
  run (fun _ => RangeFinder_Good)
    [Receive [xfe; x02; x03; x04; x05; x0e]; CallUpdate 20;
     Receive [x48; x00; x00; x48]; CallDetectVersion; CallGetReading]
    (resolved 1 254 [])
  = Ok {| uart := Some []; _version_known := true; _version := 1; _header := 254;
          linebuf := [xfe; x02; x03; x04; x05; x0e]; linebuf_len := 0;
          last_reading_ms := 20; distance_cm := 1027; status := RangeFinder_Good |}.
Proof. vm_compute. reflexivity. Qed.

(** ** The frame buffer across calls *)

Lemma detect_version_set_linebuf (s : AP_RangeFinder_uLanding) (lb : list byte) (len : Z) :
  detect_version (set_linebuf s lb len) =
  ('(s1, b) <- detect_version s ;; Ok (set_linebuf s1 lb len, b)).
Proof.
  unfold detect_version. cbn [set_linebuf _version_known uart].
  destruct (_version_known s); [reflexivity|].
  destruct (uart s) as [rx|]; [|reflexivity].
  destruct (detect_loop _ rx detect_init) as [[rx' [[v h]|]]|f]; reflexivity.
Qed.

Lemma get_reading_buffer (s : AP_RangeFinder_uLanding) (lb lb' : list byte)
  (len len' r : Z) :
  length lb = 6%nat -> length lb' = 6%nat ->
  outcome (get_reading (set_linebuf s lb len) r) =
  outcome (get_reading (set_linebuf s lb' len') r).
Proof.
  intros Hl Hl'. unfold get_reading. cbn [set_linebuf uart].
  destruct (uart s) as [rx|] eqn:Hu; [|reflexivity].
  rewrite !detect_version_set_linebuf.
  destruct (detect_version_spec s) as (s1 & b & -> & _).
  cbn [bind]. destruct b; cbn [negb]; [|reflexivity].
  assert (Hag : agree (reading_init (set_linebuf s1 lb len))
                      (reading_init (set_linebuf s1 lb' len'))).
  { unfold agree. cbn. repeat split; try assumption; discriminate. }
  destruct (reading_loop_agree
              (Z.to_nat (to_int16 (available (uart_queue s1)))) (_version s1) (_header s1)
              (uart_queue s1) _ _ (nbytes_le _) Hag)
    as (rx' & m & m' & Hm & Hm' & (Hs & Hc & _)).
  change (uart_queue (set_linebuf s1 lb len)) with (uart_queue s1).
  change (uart_queue (set_linebuf s1 lb' len')) with (uart_queue s1).
  cbn [set_linebuf _version _header] in *.
  rewrite Hm, Hm'. cbn [bind]. rewrite Hs, Hc.
  destruct (r_count m' =? 0); [reflexivity|].
  cbn [set_linebuf set_uart _version].
  destruct (average (_version s1) (r_sum m') (r_count m')); reflexivity.
Qed.

Lemma get_reading_skip (s : AP_RangeFinder_uLanding) (pre rest : list byte) (r : Z) :
  _version_known s = true -> uart s = Some (pre ++ rest) ->
  Forall (fun c => b2z c <> _header s) pre ->
  available (pre ++ rest) <= 32767 ->
  get_reading s r = get_reading (set_uart s (Some rest)) r.
Proof.
  intros Hk Hu Hpre Hav.
  rewrite (get_reading_known s (pre ++ rest) r Hk Hu).
  rewrite (get_reading_known (set_uart s (Some rest)) rest r Hk eq_refl).
  assert (Hav' : available rest <= 32767).
  { unfold available in *. rewrite length_app in Hav. lia. }
  rewrite !nbytes_all by assumption.
  rewrite !reading_loop_all, reading_fold_app.
  rewrite reading_fold_skip by (auto; reflexivity). reflexivity.
Qed.

(** C9. What a call of [get_reading] finds in the frame buffer never
    reaches a reading: the result of a call is the same whatever [linebuf]
    and [linebuf_len] hold at entry, so a partial frame left by an earlier
    call is not continued; and the bytes read before the first header-valued
    byte of a call are dropped, the call going on as if they had not been
    sent. *)
Theorem stale_frame_never_decoded (s : AP_RangeFinder_uLanding)
  (lb lb' : list byte) (len len' : Z) (pre rest : list byte) (r : Z) :
  length lb = 6%nat -> length lb' = 6%nat ->
  _version_known s = true -> uart s = Some (pre ++ rest) ->
  Forall (fun c => b2z c <> _header s) pre ->
  available (pre ++ rest) <= 32767 ->
  outcome (get_reading (set_linebuf s lb len) r) =
  outcome (get_reading (set_linebuf s lb' len') r) /\
  get_reading s r = get_reading (set_uart s (Some rest)) r.
Proof.
  intros Hl Hl' Hk Hu Hpre Hav. split.
  - apply get_reading_buffer; assumption.
  - apply (get_reading_skip s pre rest r); assumption.
Qed.

Lemma stale_frame_never_decoded_witness :
  outcome (get_reading
             (set_linebuf (resolved 1 254 [x07; x00; x04; x0b; xfe; x01; x64; x00; x00; x65])
                [xfe; x01; x02; x03; x00; x00] 4) 0) =
  outcome (get_reading
             (set_linebuf (resolved 1 254 [x07; x00; x04; x0b; xfe; x01; x64; x00; x00; x65])
                [x00; x00; x00; x00; x00; x00] 0) 0) /\
  get_reading (resolved 1 254 [x07; x00; x04; x0b; xfe; x01; x64; x00; x00; x65]) 0 =
  get_reading (set_uart (resolved 1 254 [x07; x00; x04; x0b; xfe; x01; x64; x00; x00; x65])
                 (Some [xfe; x01; x64; x00; x00; x65])) 0.
Proof.
  apply (stale_frame_never_decoded
           (resolved 1 254 [x07; x00; x04; x0b; xfe; x01; x64; x00; x00; x65])
           [xfe; x01; x02; x03; x00; x00] [x00; x00; x00; x00; x00; x00] 4 0
           [x07; x00; x04; x0b] [xfe; x01; x64; x00; x00; x65] 0);
    try reflexivity.
  - repeat constructor; discriminate.
  - discriminate.
Defined.

(** ** get_reading: fewer bytes than a full frame buffer *)

(** A frame is processed only when [linebuf_len] reaches the capacity of
    [linebuf]: with fewer bytes to read than the buffer still lacks, nothing
    is accepted, whatever the version. *)
Lemma reading_fold_short (v h : Z) (bytes : list byte) (l : reading_locals) :
  frame_inv l ->
  Z.of_nat (length bytes) <
    LINEBUF_SIZE - (if r_hdr_found l then r_linebuf_len l else 0) ->
  exists l', reading_fold v h bytes l = Ok l' /\
             r_count l' = r_count l /\ r_sum l' = r_sum l /\ r_frames l' = r_frames l.
Proof.
  revert l. induction bytes as [|c bytes IH]; intros l Hinv Hlen; cbn [reading_fold].
  - eauto.
  - cbn [length] in Hlen. destruct (r_hdr_found l) eqn:Hf.
    + specialize (Hinv Hf).
      rewrite reading_body_collect by (auto; lia). cbn [bind].
      destruct (IH (pushed l c)) as (l' & Hl' & H1 & H2 & H3).
      * intros _. cbn [pushed r_linebuf_len]. unfold LINEBUF_SIZE in *. lia.
      * cbn [pushed r_hdr_found r_linebuf_len]. rewrite Hf. lia.
      * exists l'. auto.
    + destruct (Z.eq_dec (b2z c) h) as [E|E].
      * rewrite (reading_body_header v h c l Hf E). cbn [bind].
        destruct (IH (pushed (set_frame l true 0) c)) as (l' & Hl' & H1 & H2 & H3).
        -- intros _. cbn. unfold LINEBUF_SIZE. lia.
        -- cbn. unfold LINEBUF_SIZE in *. lia.
        -- exists l'. auto.
      * rewrite (reading_body_skip v h c l Hf E). cbn [bind].
        apply IH; [exact Hinv|]. rewrite Hf. lia.
Qed.

(** C1 (as the code has it). With the dialect resolved to version 0, a
    complete legacy frame of three bytes, header, low and high, is not
    decoded when it is all there is to read: [get_reading] returns false and
    leaves the reading alone.  The test that holds processing back is
    [linebuf_len < 6 || (_version == 0 && linebuf_len < 3)], and its first
    half alone keeps a three-byte buffer waiting. *)
Theorem legacy_frame_not_decoded (s : AP_RangeFinder_uLanding) (lo hi : byte) (r : Z) :
  _version_known s = true -> _version s = 0 -> _header s = ULANDING_HDR_V0 ->
  uart s = Some [x48; lo; hi] ->
  outcome (get_reading s r) = Ok (false, r).
Proof.
  intros Hk Hv Hh Hu. rewrite (get_reading_known s _ r Hk Hu).
  rewrite nbytes_all by (cbn; lia). rewrite reading_loop_all.
  destruct (reading_fold_short (_version s) (_header s) [x48; lo; hi] (reading_init s)
              (reading_init_inv s)) as (l & -> & Hc & _).
  { cbn. unfold LINEBUF_SIZE. lia. }
  cbn [bind]. rewrite Hc. reflexivity.
Qed.

Lemma legacy_frame_not_decoded_witness :
  outcome (get_reading (resolved 0 72 [x48; x0a; x00]) 0) = Ok (false, 0).
Proof.
  apply (legacy_frame_not_decoded (resolved 0 72 [x48; x0a; x00]) x0a x00 0);
    reflexivity.
Defined.

(** Under version 0 the frame is processed at the sixth byte: of two legacy
    frames in a row the first is decoded and the second is swallowed. *)
Example legacy_frames_pair :
  outcome (get_reading (resolved 0 72 [x48; x0a; x00; x48; x14; x00]) 0) = Ok (true, 25) /\
  decoded_frames (resolved 0 72 [x48; x0a; x00; x48; x14; x00]) = [10].
Proof.
  split; reflexivity.
Qed.

(** ** get_reading: one frame, two frames, many frames *)




(** A sensor that reports sub-version 0, polled once with its version pair
    and one checksummed frame saying 10 cm: byte 2, the low distance byte,
    is taken for the high seven bits, and the reading is 10 * 128 * 2.5. *)
Example subversion_zero_one_call :
  outcome (get_reading (fresh [xfe; x00; xfe; x00; x0a; x00; x00; x0a]) 0) = Ok (true, 3200).
Proof. reflexivity. Qed.

(** C7 (as the code has it). When a call accepts at least one frame and
    the raw values of the accepted frames add up to less than 2^24, so that
    the single-precision [sum] is exact, [get_reading] returns true with the
    integer mean of those raw values when the version is not 0, and with 2.5
    times that mean, fraction dropped, when the version is 0. *)
Theorem get_reading_mean (s s1 : AP_RangeFinder_uLanding) (r : Z) :
  uart s <> None -> detect_version s = Ok (s1, true) ->
  decoded_frames s <> [] -> total (decoded_frames s) < 16777216 ->
  outcome (get_reading s r) =
  Ok (true, scaled (_version s1) (mean (decoded_frames s))).
Proof.
  intros Hu Hd Hne Htot.
  pose proof (detect_version_true s s1 Hd) as Hk.
  rewrite (get_reading_detect s s1 r Hu Hd).
  rewrite (decoded_frames_detect s s1 Hu Hd) in *.
  assert (Hu1 : uart s1 <> None).
  { destruct (detect_version_spec s) as (s' & b & H1 & Hnull & _).
    rewrite Hd in H1. inversion H1; subst. tauto. }
  rewrite (get_reading_frames s1 r Hk Hu1 Htot).
  destruct (decoded_frames s1); [congruence|reflexivity].
Qed.

Lemma get_reading_mean_witness :
  outcome (get_reading (resolved 1 254 frames_100_200) 0) =
  Ok (true, scaled (_version (resolved 1 254 frames_100_200))
              (mean (decoded_frames (resolved 1 254 frames_100_200)))).
Proof.
  apply (get_reading_mean (resolved 1 254 frames_100_200)
           (resolved 1 254 frames_100_200) 0).
  - discriminate.
  - reflexivity.
  - vm_compute. discriminate.
  - vm_compute. reflexivity.
Defined.

(** Two frames of 100 cm and 200 cm in one call give 150 cm. *)
Example get_reading_mean_150 :
  decoded_frames (resolved 1 254 frames_100_200) = [100; 200] /\
  outcome (get_reading (resolved 1 254 frames_100_200) 0) = Ok (true, 150).
Proof.
  split; vm_compute; reflexivity.
Qed.

(** Under version 0 the reading is not the mean of the raw values: one
    accepted frame of raw value 10 gives 25. *)
Lemma mean_is_scaled_under_version_0 :
  decoded_frames (resolved 0 72 [x48; x0a; x00; x00; x00; x00]) = [10] /\
  outcome (get_reading (resolved 0 72 [x48; x0a; x00; x00; x00; x00]) 0) = Ok (true, 25) /\
  outcome (get_reading (resolved 0 72 [x48; x0a; x00; x00; x00; x00]) 0) <>
    Ok (true, mean (decoded_frames (resolved 0 72 [x48; x0a; x00; x00; x00; x00]))).
Proof.
  split; [reflexivity|]. split; [reflexivity|].
  intros H. vm_compute in H. discriminate H.
Qed.

(** Past 2^24 the single-precision [sum] rounds: a thousand frames of
    40001 cm in one call are averaged to 40000. *)
Example mean_rounds_past_2_24 :
  outcome (get_reading
             (resolved 1 254 (concat (repeat [xfe; x01; x41; x9c; x00; xde] 1000))) 0)
  = Ok (true, 40000) /\
  mean (decoded_frames
          (resolved 1 254 (concat (repeat [xfe; x01; x41; x9c; x00; xde] 1000))))
  = 40001.
Proof.
  split; vm_compute; reflexivity.
Qed.

(** ** get_reading: a frame with a bad checksum *)

Lemma reading_body_length (v h : Z) (c : byte) (l l' : reading_locals) :
  reading_body v h c l = Ok l' -> length (r_linebuf l') = length (r_linebuf l).
Proof.
  unfold reading_body, push, linebuf_store.
  destruct ((b2z c =? h) && negb (r_hdr_found l)); cbn [set_frame r_hdr_found r_linebuf
    r_linebuf_len r_sum r_count r_frames];
  repeat match goal with
  | |- context [if ?b then _ else _] => destruct b eqn:?; cbn [bind set_frame accumulate
      r_hdr_found r_linebuf r_linebuf_len r_sum r_count r_frames]
  end;
  intros H; inversion H; subst; cbn; rewrite ?length_store; reflexivity.
Qed.

Lemma reading_fold_length (v h : Z) (bytes : list byte) (l l' : reading_locals) :
  reading_fold v h bytes l = Ok l' -> length (r_linebuf l') = length (r_linebuf l).
Proof.
  revert l. induction bytes as [|c bytes IH]; intros l H; cbn [reading_fold] in H.
  - inversion H. reflexivity.
  - destruct (reading_body v h c l) as [l1|f] eqn:Hb; [|discriminate]. cbn [bind] in H.
    rewrite (IH l1 H). eapply reading_body_length, Hb.
Qed.


Lemma between_frames_nil (s : AP_RangeFinder_uLanding) : between_frames s [].
Proof.
  exists (reading_init s). split; reflexivity.
Qed.




(** The frame of the specification's example, alone: nothing is accepted
    and the call returns false; between two good frames of 100 and 200 cm it
    leaves their mean alone. *)
Example bad_checksum_frame_alone :
  decoded_frames (resolved 1 254 [xfe; x01; x02; x03; x04; x0b]) = [] /\
  outcome (get_reading (resolved 1 254 [xfe; x01; x02; x03; x04; x0b]) 0) = Ok (false, 0) /\
  outcome (get_reading
             (resolved 1 254 (frame_100 ++ [xfe; x01; x02; x03; x04; x0b] ++ frame_200)) 0)
  = Ok (true, 150).
Proof.
  repeat split; vm_compute; reflexivity.
Qed.

(** ** detect_version: candidates *)

Lemma detect_body_candidate (c : Z) (l : detect_locals) :
  d_hdr_found l = false -> c = ULANDING_HDR_V0 \/ c = ULANDING_HDR ->
  detect_body c l =
  DetectContinue {| d_hdr_found := true; d_byte1 := c; d_count := to_uint8 (d_count l + 1) |}.
Proof.
  intros Hf Hc. unfold detect_body. rewrite Hf.
  destruct Hc as [-> | ->]; reflexivity.
Qed.

(** While fewer than four bytes have been counted, a legacy candidate
    takes any byte. *)
Lemma detect_body_v0_collect (c n : Z) :
  0 <= n < 3 ->
  detect_body c {| d_hdr_found := true; d_byte1 := ULANDING_HDR_V0; d_count := n |} =
  DetectContinue {| d_hdr_found := true; d_byte1 := ULANDING_HDR_V0; d_count := n + 1 |}.
Proof.
  intros Hn. unfold detect_body. cbn [d_hdr_found d_byte1 d_count negb].
  rewrite andb_false_r. rewrite Z.eqb_refl.
  unfold to_uint8. rewrite Z.mod_small by lia.
  replace (n + 1 <? 4) with true by (symmetry; apply Z.ltb_lt; lia). reflexivity.
Qed.

(** The fourth byte decides a legacy candidate, and is used up either way. *)
Lemma detect_body_v0_decide (c : Z) :
  detect_body c {| d_hdr_found := true; d_byte1 := ULANDING_HDR_V0; d_count := 3 |} =
  if c =? ULANDING_HDR_V0 then DetectReturn 0 ULANDING_HDR_V0
  else DetectContinue detect_init.
Proof.
  unfold detect_body. cbn [d_hdr_found d_byte1 d_count negb].
  rewrite andb_false_r. reflexivity.
Qed.

(** The byte after a 0xFE candidate decides it. *)
Lemma detect_body_v1_decide (c n : Z) :
  detect_body c {| d_hdr_found := true; d_byte1 := ULANDING_HDR; d_count := n |} =
  if negb (Z.land c 128 =? 0) || (c =? ULANDING_HDR_V0) then DetectContinue detect_init
  else DetectReturn c ULANDING_HDR.
Proof.
  unfold detect_body. cbn [d_hdr_found d_byte1 d_count negb].
  rewrite andb_false_r. reflexivity.
Qed.

Lemma scan_locals_failed_candidate (a b c : byte) :
  c <> x48 -> scan_locals [x48; a; b; c] detect_init = Some detect_init.
Proof.
  intros Hc. cbn [scan_locals].
  rewrite (detect_body_candidate (b2z x48) detect_init) by (auto; left; reflexivity).
  cbn [detect_init d_count]. change (to_uint8 (0 + 1)) with 1. change (b2z x48) with ULANDING_HDR_V0.
  rewrite detect_body_v0_collect by lia. cbn [Z.add Pos.add].
  rewrite detect_body_v0_collect by lia. cbn [Z.add Pos.add Pos.succ].
  rewrite detect_body_v0_decide.
  replace (b2z c =? ULANDING_HDR_V0) with false; [reflexivity|].
  symmetry. apply Z.eqb_neq. intros E. apply Hc. apply b2z_inj. exact E.
Qed.

(** C3 (as the code has it). When the fourth byte collected for a legacy
    candidate differs from 0x48, the candidate is dropped and the fourth
    byte is used up with it: the scan goes on at the byte after, so the call
    ends as a call on the remaining bytes alone would.  A 0xFE in fourth
    place is not taken up as a candidate: followed by a sub-version byte and
    nothing else, it leaves the detector unresolved. *)
Theorem fourth_byte_consumed (s : AP_RangeFinder_uLanding) (a b c v : byte)
  (rest : list byte) :
  _version_known s = false -> uart s = Some (x48 :: a :: b :: c :: rest) ->
  available (x48 :: a :: b :: c :: rest) <= 32767 -> c <> x48 ->
  detect_version s = detect_version (set_uart s (Some rest)) /\
  (rest = [v] -> Z.land (b2z v) 128 = 0 -> v <> x48 ->
   detect_version s = Ok (set_uart s (Some []), false)).
Proof.
  intros Hk Hu Hav Hc.
  assert (Hav' : available rest <= 32767).
  { unfold available in *. cbn [length] in Hav. lia. }
  assert (H : detect_version s = detect_version (set_uart s (Some rest))).
  { rewrite (detect_version_scan s _ Hk Hu).
    rewrite (detect_version_scan (set_uart s (Some rest)) rest Hk eq_refl).
    rewrite !nbytes_all by assumption.
    change (x48 :: a :: b :: c :: rest) with ([x48; a; b; c] ++ rest).
    rewrite length_app.
    rewrite (detect_loop_app [x48; a; b; c] rest (length rest) detect_init detect_init)
      by (apply scan_locals_failed_candidate, Hc).
    destruct (detect_loop (length rest) rest detect_init) as [[rx' [[v' h']|]]|f];
      reflexivity. }
  split; [exact H|].
  intros -> Hhigh Hv. rewrite H.
  rewrite (detect_version_scan (set_uart s (Some [v])) [v] Hk eq_refl).
  cbn [available length Z.of_nat to_int16 Z.to_nat detect_loop read bind].
  change (Z.to_nat (to_int16 (Z.pos (Pos.of_succ_nat 0)))) with 1%nat.
  cbn [detect_loop read bind].
  rewrite detect_body_skip; [reflexivity|reflexivity| |].
  - intros E. apply Hv. apply b2z_inj. exact E.
  - intros E. rewrite E in Hhigh. discriminate Hhigh.
Qed.

Lemma fourth_byte_consumed_witness :
  detect_version (fresh [x48; x00; x00; xfe; x01]) =
    detect_version (set_uart (fresh [x48; x00; x00; xfe; x01]) (Some [x01])) /\
  detect_version (fresh [x48; x00; x00; xfe; x01]) =
    Ok (set_uart (fresh [x48; x00; x00; xfe; x01]) (Some []), false).
Proof.
  destruct (fourth_byte_consumed (fresh [x48; x00; x00; xfe; x01]) x00 x00 xfe x01 [x01])
    as [H1 H2].
  - reflexivity.
  - reflexivity.
  - vm_compute. discriminate.
  - discriminate.
  - split; [exact H1|]. apply H2; [reflexivity|reflexivity|discriminate].
Defined.

(** The fourth byte is not examined again: with 0xFE in fourth place and a
    sub-version byte after it, the call returns false, unresolved. *)
Lemma fourth_byte_not_reexamined :
  detect_version (fresh [x48; x00; x00; xfe; x01]) = Ok (fresh [], false).
Proof. reflexivity. Qed.

(** C2 (as the code has it). When the detector is searching for a header
    byte as it reads the 0xFE of a pair [0xFE, v], with the high bit of v
    clear and v other than 0x48, it resolves there: version v, header byte
    0xFE, result true, and the bytes after the pair stay on the port. *)
Theorem checksummed_version_detected (s : AP_RangeFinder_uLanding)
  (pre post : list byte) (v : byte) :
  _version_known s = false -> uart s = Some (pre ++ xfe :: v :: post) ->
  available (pre ++ xfe :: v :: post) <= 32767 ->
  searching_after pre ->
  Z.land (b2z v) 128 = 0 -> v <> x48 ->
  detect_version s = Ok (set_version (set_uart s (Some post)) (b2z v) ULANDING_HDR, true).
Proof.
  intros Hk Hu Hav (l & Hpre & Hf) Hhigh Hv.
  rewrite (detect_version_scan s _ Hk Hu), nbytes_all by exact Hav.
  rewrite length_app. cbn [length].
  rewrite (detect_loop_app pre _ _ detect_init l Hpre).
  cbn [detect_loop read bind].
  rewrite (detect_body_candidate (b2z xfe) l Hf) by (right; reflexivity).
  change (b2z xfe) with ULANDING_HDR. rewrite detect_body_v1_decide.
  rewrite Hhigh. cbn [Z.eqb negb orb].
  replace (b2z v =? ULANDING_HDR_V0) with false; [reflexivity|].
  symmetry. apply Z.eqb_neq. intros E. apply Hv. apply b2z_inj. exact E.
Qed.

Lemma checksummed_version_detected_witness :
  detect_version (fresh ([x80; x48; x11; x22; x33] ++ xfe :: x01 :: [x64; x00])) =
  Ok (set_version
        (set_uart (fresh ([x80; x48; x11; x22; x33] ++ xfe :: x01 :: [x64; x00]))
           (Some [x64; x00])) (b2z x01) ULANDING_HDR, true).
Proof.
  apply (checksummed_version_detected
           (fresh ([x80; x48; x11; x22; x33] ++ xfe :: x01 :: [x64; x00]))
           [x80; x48; x11; x22; x33] [x64; x00] x01).
  - reflexivity.
  - reflexivity.
  - vm_compute. discriminate.
  - eexists. split; reflexivity.
  - reflexivity.
  - discriminate.
Defined.

(** A pair [0xFE, 0x01] that arrives while a legacy candidate is still
    collecting its four bytes is not seen: the call returns false and the
    detector stays unresolved. *)
Lemma pair_inside_candidate_missed :
  detect_version (fresh [x48; xfe; x01]) = Ok (fresh [], false).
Proof. reflexivity. Qed.

(** The same pair between two 0x48 three bytes apart resolves to version 0
    with header byte 0x48. *)
Example pair_inside_confirmed_candidate :
  detect_version (fresh [x48; xfe; x01; x48]) = Ok (resolved 0 72 [], true).
Proof. reflexivity. Qed.

(** * Further properties of the driver *)

(** ** detect_version *)

(** A detector that holds no candidate holds nothing at all: the count and
    the remembered byte are back at zero. *)
Lemma detect_body_reset (c : Z) (l l' : detect_locals) :
  (d_hdr_found l = false -> l = detect_init) ->
  detect_body c l = DetectContinue l' ->
  d_hdr_found l' = false -> l' = detect_init.
Proof.
  intros Hinv. unfold detect_body.
  destruct (((c =? ULANDING_HDR_V0) || (c =? ULANDING_HDR)) && negb (d_hdr_found l)).
  - intros H; inversion H; subst; cbn; discriminate.
  - destruct (d_hdr_found l) eqn:Hf.
    + destruct (d_byte1 l =? ULANDING_HDR_V0).
      * destruct (to_uint8 (d_count l + 1) <? 4).
        -- intros H; inversion H; subst; cbn; discriminate.
        -- destruct (c =? d_byte1 l); intros H; inversion H; subst; reflexivity.
      * destruct (negb (Z.land c 128 =? 0) || (c =? ULANDING_HDR_V0));
          intros H; inversion H; subst; reflexivity.
    + intros H; inversion H; subst. intros _. apply Hinv. reflexivity.
Qed.

Lemma scan_locals_reset (bytes : list byte) (l l' : detect_locals) :
  (d_hdr_found l = false -> l = detect_init) ->
  scan_locals bytes l = Some l' ->
  d_hdr_found l' = false -> l' = detect_init.
Proof.
  revert l. induction bytes as [|c bytes IH]; intros l Hinv H; cbn [scan_locals] in H.
  - inversion H; subst. exact Hinv.
  - destruct (detect_body (b2z c) l) as [l1|v h] eqn:Hb; [|discriminate].
    apply (IH l1); [|exact H]. apply (detect_body_reset (b2z c) l l1 Hinv Hb).
Qed.

(** X1. When the detector is searching for a header byte as it reads a
    0x48, and the third byte after it is 0x48 again, it resolves there:
    version 0, header byte 0x48, result true, whatever the two bytes in
    between, and the bytes after the second 0x48 stay on the port. *)
Theorem legacy_version_detected (s : AP_RangeFinder_uLanding)
  (pre post : list byte) (a b : byte) :
  _version_known s = false -> uart s = Some (pre ++ x48 :: a :: b :: x48 :: post) ->
  available (pre ++ x48 :: a :: b :: x48 :: post) <= 32767 ->
  searching_after pre ->
  detect_version s = Ok (set_version (set_uart s (Some post)) 0 ULANDING_HDR_V0, true).
Proof.
  intros Hk Hu Hav (l & Hpre & Hf).
  assert (Hl : l = detect_init).
  { apply (scan_locals_reset pre detect_init l); auto. }
  subst l.
  rewrite (detect_version_scan s _ Hk Hu), nbytes_all by exact Hav.
  rewrite length_app. cbn [length].
  rewrite (detect_loop_app pre _ _ detect_init detect_init Hpre).
  cbn [detect_loop read bind].
  rewrite (detect_body_candidate (b2z x48) detect_init) by (auto; left; reflexivity).
  cbn [detect_init d_count]. change (to_uint8 (0 + 1)) with 1.
  change (b2z x48) with ULANDING_HDR_V0.
  rewrite detect_body_v0_collect by lia. cbn [Z.add Pos.add].
  rewrite detect_body_v0_collect by lia. cbn [Z.add Pos.add Pos.succ].
  rewrite detect_body_v0_decide. reflexivity.
Qed.

Lemma legacy_version_detected_witness :
  detect_version (fresh ([xfe; x80; x00] ++ x48 :: x85 :: x81 :: x48 :: [x86; x81])) =
  Ok (set_version
        (set_uart (fresh ([xfe; x80; x00] ++ x48 :: x85 :: x81 :: x48 :: [x86; x81]))
           (Some [x86; x81])) 0 ULANDING_HDR_V0, true).
Proof.
  apply (legacy_version_detected
           (fresh ([xfe; x80; x00] ++ x48 :: x85 :: x81 :: x48 :: [x86; x81]))
           [xfe; x80; x00] [x86; x81] x85 x81).
  - reflexivity.
  - reflexivity.
  - vm_compute. discriminate.
  - eexists. split; reflexivity.
Defined.

Lemma high_bit_clear (x : Z) : 0 <= x <= 255 -> Z.land x 128 = 0 -> x <= 127.
Proof.
  intros Hr Hland. destruct (Z.le_gt_cases x 127) as [L|G]; [exact L|exfalso].
  assert (Hbit : Z.testbit (Z.land x 128) 7 = true).
  { rewrite Z.land_spec. replace (Z.testbit 128 7) with true by reflexivity.
    rewrite andb_true_r. apply Z.testbit_true; [lia|].
    change (2 ^ 7) with 128.
    replace (x / 128) with 1; [reflexivity|].
    apply (Z.div_unique x 128 1 (x - 128)); lia. }
  rewrite Hland, Z.bits_0 in Hbit. discriminate Hbit.
Qed.

Lemma detect_body_return (c : byte) (l : detect_locals) (v h : Z) :
  detect_body (b2z c) l = DetectReturn v h ->
  (v = 0 /\ h = ULANDING_HDR_V0) \/
  (h = ULANDING_HDR /\ 0 <= v <= 127 /\ v <> ULANDING_HDR_V0).
Proof.
  unfold detect_body.
  destruct (((b2z c =? ULANDING_HDR_V0) || (b2z c =? ULANDING_HDR)) && negb (d_hdr_found l));
    [discriminate|].
  destruct (d_hdr_found l); [|discriminate].
  destruct (d_byte1 l =? ULANDING_HDR_V0).
  - destruct (to_uint8 (d_count l + 1) <? 4); [discriminate|].
    destruct (b2z c =? d_byte1 l); [|discriminate].
    intros H; inversion H; subst. left. split; reflexivity.
  - destruct (negb (Z.land (b2z c) 128 =? 0) || (b2z c =? ULANDING_HDR_V0)) eqn:Hc;
      [discriminate|].
    intros H; inversion H; subst. right. split; [reflexivity|].
    apply orb_false_iff in Hc. destruct Hc as [Hhigh Hne].
    apply negb_false_iff, Z.eqb_eq in Hhigh. apply Z.eqb_neq in Hne.
    split; [|exact Hne].
    pose proof (b2z_range c) as Hr. pose proof (high_bit_clear (b2z c) Hr Hhigh). lia.
Qed.

Lemma detect_loop_return (n : nat) (rx rx' : UARTDriver) (l : detect_locals) (v h : Z) :
  detect_loop n rx l = Ok (rx', Some (v, h)) ->
  (v = 0 /\ h = ULANDING_HDR_V0) \/
  (h = ULANDING_HDR /\ 0 <= v <= 127 /\ v <> ULANDING_HDR_V0).
Proof.
  revert rx l. induction n as [|n IH]; intros rx l H; cbn [detect_loop] in H.
  - discriminate.
  - destruct rx as [|c rx]; [discriminate|]. cbn [read bind] in H.
    destruct (detect_body (b2z c) l) as [l1|v1 h1] eqn:Hb.
    + apply (IH rx l1 H).
    + inversion H; subst. apply (detect_body_return c l v h Hb).
Qed.

(** X2. Whatever the bytes, a detection ends in one of two shapes: version
    0 with header byte 0x48, or header byte 0xFE with a version between 0
    and 127 other than 0x48.  No other pair of values is ever stored. *)
Theorem detect_version_results (s s' : AP_RangeFinder_uLanding) :
  _version_known s = false -> detect_version s = Ok (s', true) ->
  _version_known s' = true /\
  ((_version s' = 0 /\ _header s' = ULANDING_HDR_V0) \/
   (_header s' = ULANDING_HDR /\ 0 <= _version s' <= 127 /\
    _version s' <> ULANDING_HDR_V0)).
Proof.
  intros Hk Hd. split; [apply (detect_version_true s s' Hd)|].
  unfold detect_version in Hd. rewrite Hk in Hd.
  destruct (uart s) as [rx|]; [|discriminate].
  destruct (detect_loop (Z.to_nat (to_int16 (available rx))) rx detect_init)
    as [[rx' [[v h]|]]|f] eqn:Hl; cbn [bind] in Hd; try discriminate.
  inversion Hd; subst. cbn [set_version _version _header].
  apply (detect_loop_return _ _ _ _ _ _ Hl).
Qed.

Lemma detect_version_results_witness :
  _version_known (resolved 1 254 [x64]) = true /\
  ((_version (resolved 1 254 [x64]) = 0 /\
    _header (resolved 1 254 [x64]) = ULANDING_HDR_V0) \/
   (_header (resolved 1 254 [x64]) = ULANDING_HDR /\
    0 <= _version (resolved 1 254 [x64]) <= 127 /\
    _version (resolved 1 254 [x64]) <> ULANDING_HDR_V0)).
Proof.
  apply (detect_version_results (fresh [x00; xfe; x01; x64]) (resolved 1 254 [x64]));
    reflexivity.
Defined.

Lemma detect_loop_drains (rx rx' : UARTDriver) (l : detect_locals) :
  detect_loop (length rx) rx l = Ok (rx', None) -> rx' = [].
Proof.
  revert l. induction rx as [|c rx IH]; intros l H; cbn [length detect_loop read bind] in H.
  - inversion H. reflexivity.
  - destruct (detect_body (b2z c) l) as [l1|v h]; [|discriminate].
    apply (IH l1 H).
Qed.

(** X3. A call of [detect_version] that returns false has read every byte
    that was waiting and kept nothing of them: the instance is as before but
    for an empty port, a header candidate seen in the last bytes is
    forgotten, and the next call starts from scratch on what arrives. *)
Theorem detect_version_gives_up (s s' : AP_RangeFinder_uLanding) (rx : UARTDriver) :
  _version_known s = false -> uart s = Some rx -> available rx <= 32767 ->
  detect_version s = Ok (s', false) ->
  s' = set_uart s (Some []).
Proof.
  intros Hk Hu Hav Hd.
  rewrite (detect_version_scan s rx Hk Hu), nbytes_all in Hd by exact Hav.
  destruct (detect_loop (length rx) rx detect_init) as [[rx' [[v h]|]]|f] eqn:Hl;
    cbn [bind] in Hd; try discriminate.
  inversion Hd; subst. rewrite (detect_loop_drains rx rx' detect_init Hl). reflexivity.
Qed.

Lemma detect_version_gives_up_witness :
  detect_version (fresh [x00; x48; x12; xfe]) = Ok (fresh [], false) /\
  fresh [] = set_uart (fresh [x00; x48; x12; xfe]) (Some []).
Proof.
  split; [reflexivity|].
  apply (detect_version_gives_up (fresh [x00; x48; x12; xfe]) (fresh [])
           [x00; x48; x12; xfe]).
  - reflexivity.
  - reflexivity.
  - vm_compute. discriminate.
  - reflexivity.
Defined.

(** A pair split over two calls is not detected: the 0xFE that ends one
    call is gone when the sub-version byte opens the next. *)
Example split_pair_not_detected :
  run (fun _ => RangeFinder_Good)
    [Receive [x00; xfe]; CallDetectVersion; Receive [x01; x64]; CallDetectVersion]
    (fresh [])
  = Ok (fresh []).
Proof. reflexivity. Qed.

(** X4. The byte that rejects a 0xFE candidate, one with its high bit set
    or a 0x48, is used up with it: the scan goes on at the byte after, and a
    0x48 in that place is not taken as a legacy candidate. *)
Theorem rejected_candidate_consumed (s : AP_RangeFinder_uLanding) (c : byte)
  (rest : list byte) :
  _version_known s = false -> uart s = Some (xfe :: c :: rest) ->
  available (xfe :: c :: rest) <= 32767 ->
  Z.land (b2z c) 128 <> 0 \/ c = x48 ->
  detect_version s = detect_version (set_uart s (Some rest)).
Proof.
  intros Hk Hu Hav Hc.
  assert (Hav' : available rest <= 32767).
  { unfold available in *. cbn [length] in Hav. lia. }
  rewrite (detect_version_scan s _ Hk Hu).
  rewrite (detect_version_scan (set_uart s (Some rest)) rest Hk eq_refl).
  rewrite !nbytes_all by assumption.
  cbn [length detect_loop read bind].
  rewrite (detect_body_candidate (b2z xfe) detect_init) by (auto; right; reflexivity).
  change (b2z xfe) with ULANDING_HDR. rewrite detect_body_v1_decide.
  replace (negb (Z.land (b2z c) 128 =? 0) || (b2z c =? ULANDING_HDR_V0)) with true.
  - destruct (detect_loop (length rest) rest detect_init) as [[rx' [[v' h']|]]|f];
      reflexivity.
  - symmetry. apply orb_true_iff. destruct Hc as [Hc| ->].
    + left. apply negb_true_iff, Z.eqb_neq, Hc.
    + right. reflexivity.
Qed.

Lemma rejected_candidate_consumed_witness :
  detect_version (fresh [xfe; x48; x01; x02; x48]) =
  detect_version (set_uart (fresh [xfe; x48; x01; x02; x48]) (Some [x01; x02; x48])).
Proof.
  apply (rejected_candidate_consumed (fresh [xfe; x48; x01; x02; x48]) x48 [x01; x02; x48]).
  - reflexivity.
  - reflexivity.
  - vm_compute. discriminate.
  - right. reflexivity.
Defined.

(** Two 0x48 three bytes apart, the first right after a 0xFE: the first is
    spent on rejecting the 0xFE and the legacy sensor is not recognised. *)
Example legacy_after_fe_not_detected :
  detect_version (fresh [xfe; x48; x01; x02; x48]) = Ok (fresh [], false).
Proof. reflexivity. Qed.

(** ** get_reading and update at the edges *)

(** A detection uses up the candidate and the byte that confirms it. *)
Lemma detect_loop_consumes (n : nat) (rx rx' : UARTDriver) (l : detect_locals)
  (vh : Z * Z) :
  detect_loop n rx l = Ok (rx', Some vh) ->
  (length rx' + (if d_hdr_found l then 1 else 2) <= length rx)%nat.
Proof.
  revert rx l. induction n as [|n IH]; intros rx l H; cbn [detect_loop] in H.
  - discriminate.
  - destruct rx as [|c rx]; [discriminate|]. cbn [read bind length] in *.
    destruct (detect_body (b2z c) l) as [l1|v h] eqn:Hb.
    + specialize (IH rx l1 H). destruct (d_hdr_found l), (d_hdr_found l1); lia.
    + inversion H; subst.
      unfold detect_body in Hb.
      destruct (d_hdr_found l); [lia|].
      rewrite andb_true_r in Hb.
      destruct ((b2z c =? ULANDING_HDR_V0) || (b2z c =? ULANDING_HDR)); discriminate.
Qed.

Lemma detect_loop_length (n : nat) (rx rx' : UARTDriver) (l : detect_locals)
  (found : option (Z * Z)) :
  detect_loop n rx l = Ok (rx', found) -> (length rx' <= length rx)%nat.
Proof.
  revert rx l. induction n as [|n IH]; intros rx l H; cbn [detect_loop] in H.
  - inversion H; subst. lia.
  - destruct rx as [|c rx]; [discriminate|]. cbn [read bind length] in *.
    destruct (detect_body (b2z c) l) as [l1|v h].
    + specialize (IH rx l1 H). lia.
    + inversion H; subst. lia.
Qed.

(** What [detect_version] leaves on the port. *)
Lemma detect_version_queue (s s1 : AP_RangeFinder_uLanding) (b : bool) (rx : UARTDriver) :
  uart s = Some rx -> detect_version s = Ok (s1, b) ->
  exists rx1, uart s1 = Some rx1 /\ (length rx1 <= length rx)%nat /\
    (_version_known s = false -> b = true -> (length rx1 + 2 <= length rx)%nat) /\
    (_version_known s = false -> b = false -> available rx <= 32767 -> rx1 = []).
Proof.
  intros Hu Hd. unfold detect_version in Hd. rewrite Hu in Hd.
  destruct (_version_known s) eqn:Hk.
  - inversion Hd; subst. exists rx. repeat split; auto; discriminate.
  - destruct (detect_loop (Z.to_nat (to_int16 (available rx))) rx detect_init)
      as [[rx' found]|f] eqn:Hl; cbn [bind] in Hd; [|discriminate].
    pose proof (detect_loop_length _ _ _ _ _ Hl) as Hlen.
    destruct found as [[v h]|]; inversion Hd; subst; exists rx'; cbn [set_version set_uart uart].
    + repeat split; auto; try discriminate.
      intros _ _. apply (detect_loop_consumes _ _ _ _ _ Hl).
    + repeat split; auto; try discriminate.
      intros _ _ Hav. rewrite nbytes_all in Hl by exact Hav.
      apply (detect_loop_drains rx rx' detect_init Hl).
Qed.

(** The call of [get_reading] opened up: what [detect_version] returned, and
    the locals at the end of the loop when it returned true. *)
Lemma get_reading_cases (s : AP_RangeFinder_uLanding) (rx : UARTDriver) (r : Z) :
  uart s = Some rx ->
  exists s1 b rx1, detect_version s = Ok (s1, b) /\ uart s1 = Some rx1 /\
    (b = false -> get_reading s r = Ok (s1, false, r) /\ decoded_frames s = []) /\
    (b = true ->
     exists l,
       reading_fold (_version s1) (_header s1)
         (firstn (Z.to_nat (to_int16 (available rx1))) rx1) (reading_init s1) = Ok l /\
       decoded_frames s = r_frames l /\
       r_count l = Z.of_nat (length (r_frames l)) /\
       get_reading s r =
         (let s2 := set_linebuf
                      (set_uart s1 (Some (skipn (Z.to_nat (to_int16 (available rx1))) rx1)))
                      (r_linebuf l) (r_linebuf_len l) in
          if r_count l =? 0 then Ok (s2, false, r)
          else cm <- average (_version s1) (r_sum l) (r_count l) ;; Ok (s2, true, cm))).
Proof.
  intros Hu.
  destruct (detect_version_spec s) as (s1 & b & Hd & _).
  destruct (detect_version_queue s s1 b rx Hu Hd) as (rx1 & Hu1 & _).
  exists s1, b, rx1. split; [exact Hd|]. split; [exact Hu1|]. split.
  - intros ->. unfold get_reading, decoded_frames. rewrite Hu, Hd. split; reflexivity.
  - intros ->.
    destruct (reading_loop_known s1 rx1) as (l & Hloop & Hfold).
    exists l. split; [exact Hfold|].
    assert (Hfr : decoded_frames s = r_frames l).
    { unfold decoded_frames. rewrite Hu, Hd. unfold uart_queue. rewrite Hu1, Hloop.
      reflexivity. }
    split; [exact Hfr|]. split.
    + destruct (reading_fold_frames _ _ _ _ l Hfold) as (ext & He & _ & Hn).
      cbn [reading_init r_frames app] in He. rewrite He.
      assert (Hlen : Z.of_nat (length (firstn (Z.to_nat (to_int16 (available rx1))) rx1))
                     <= 32767).
      { rewrite length_firstn. unfold available, to_int16.
        pose proof (Z.mod_pos_bound (Z.of_nat (length rx1) + 32768) 65536 ltac:(lia)). lia. }
      clear Hloop Hfr. revert Hfold He Hn Hlen.
      generalize (firstn (Z.to_nat (to_int16 (available rx1))) rx1) as bytes.
      intros bytes Hfold He Hn Hlen.
      assert (Hgen : forall bs l0 l1,
                 reading_fold (_version s1) (_header s1) bs l0 = Ok l1 ->
                 r_count l0 = Z.of_nat (length (r_frames l0)) ->
                 Z.of_nat (length (r_frames l0)) + Z.of_nat (length bs) < 65536 ->
                 r_count l1 = Z.of_nat (length (r_frames l1))).
      { induction bs as [|c bs IH]; intros l0 l1 H0 Hc0 Hb0; cbn [reading_fold] in H0.
        - inversion H0; subst. exact Hc0.
        - destruct (reading_body (_version s1) (_header s1) c l0) as [l2|f] eqn:Hb;
            [|discriminate]. cbn [bind length] in *.
          destruct (reading_body_frames _ _ _ _ _ Hb)
            as [(Hf2 & _ & Hc2)|(raw & _ & Hf2 & _ & Hc2)].
          + apply (IH l2 l1 H0); rewrite ?Hf2, ?Hc2; [exact Hc0|lia].
          + apply (IH l2 l1 H0); rewrite ?Hf2, ?Hc2, ?length_app; cbn [length].
            * rewrite Hc0. unfold to_uint16. rewrite Z.mod_small; lia.
            * lia. }
      rewrite <- He. apply (Hgen bytes (reading_init s1) l Hfold); cbn; [reflexivity|lia].
    + unfold get_reading. rewrite Hu, Hd. cbn [bind negb]. unfold uart_queue.
      rewrite Hu1, Hloop. reflexivity.
Qed.

(** X5. A driver without a port never resolves a dialect and never
    produces a reading: over any run its version members, its frame buffer,
    its distance and the time of its last reading stay what they were. *)
Theorem no_port_no_reading (us : Z -> RangeFinder_Status) (es : list event)
  (s : AP_RangeFinder_uLanding) :
  uart s = None ->
  exists s', run us es s = Ok s' /\ uart s' = None /\ latch s' = latch s /\
             linebuf s' = linebuf s /\ linebuf_len s' = linebuf_len s /\
             distance_cm s' = distance_cm s /\ last_reading_ms s' = last_reading_ms s.
Proof.
  revert s. induction es as [|e es IH]; intros s Hu; cbn [run].
  - exists s. repeat split; auto.
  - assert (Hstep : exists s1, step us e s = Ok s1 /\ uart s1 = None /\ latch s1 = latch s /\
                      linebuf s1 = linebuf s /\ linebuf_len s1 = linebuf_len s /\
                      distance_cm s1 = distance_cm s /\
                      last_reading_ms s1 = last_reading_ms s).
    { destruct e as [bytes| | |now]; cbn [step].
      - rewrite Hu. eexists. split; [reflexivity|]. cbn. repeat split; auto.
      - unfold detect_version. rewrite Hu.
        destruct (_version_known s); eexists; (split; [reflexivity|]); repeat split; auto.
      - unfold get_reading. rewrite Hu. cbn [bind]. eexists. split; [reflexivity|].
        cbn. repeat split; auto.
      - unfold update, get_reading. rewrite Hu. cbn [bind].
        destruct (to_uint32 (now - last_reading_ms s) >? 200);
          eexists; (split; [reflexivity|]); cbn; repeat split; auto. }
    destruct Hstep as (s1 & -> & Hu1 & Hl1 & Hb1 & Hn1 & Hd1 & Hm1). cbn [bind].
    destruct (IH s1 Hu1) as (s' & Hr & Hu' & Hl' & Hb' & Hn' & Hd' & Hm').
    exists s'. repeat split; try assumption; congruence.
Qed.

Lemma no_port_no_reading_witness :
  exists s', run (fun _ => RangeFinder_Good)
               [Receive frame_100; CallUpdate 500; CallDetectVersion; CallGetReading]
               (set_uart (fresh []) None) = Ok s' /\
             uart s' = None /\ latch s' = latch (set_uart (fresh []) None) /\
             linebuf s' = linebuf (set_uart (fresh []) None) /\
             linebuf_len s' = linebuf_len (set_uart (fresh []) None) /\
             distance_cm s' = distance_cm (set_uart (fresh []) None) /\
             last_reading_ms s' = last_reading_ms (set_uart (fresh []) None).
Proof.
  apply (no_port_no_reading (fun _ => RangeFinder_Good)
           [Receive frame_100; CallUpdate 500; CallDetectVersion; CallGetReading]
           (set_uart (fresh []) None)).
  reflexivity.
Defined.

(** X6. With a port and nothing waiting on it, [detect_version] and
    [get_reading] return false and leave the whole instance as it is, and
    [update] changes nothing but the status, which it sets to no-data once
    more than 200 ms have passed since the last reading. *)
Theorem empty_port_changes_nothing (us : Z -> RangeFinder_Status)
  (s : AP_RangeFinder_uLanding) (r now : Z) :
  uart s = Some [] ->
  detect_version s = Ok (s, _version_known s) /\
  get_reading s r = Ok (s, false, r) /\
  update us now s =
    Ok (set_backend s (last_reading_ms s) (distance_cm s)
          (if to_uint32 (now - last_reading_ms s) >? 200 then RangeFinder_NoData
           else status s)).
Proof.
  intros Hu.
  assert (Hd : detect_version s = Ok (s, _version_known s)).
  { destruct s as [u k v h lb len ms cm st]. cbn in Hu. subst u.
    destruct k; reflexivity. }
  assert (Hg : forall r', get_reading s r' = Ok (s, false, r')).
  { intros r'. destruct s as [u k v h lb len ms cm st]. cbn in Hu. subst u.
    destruct k; reflexivity. }
  split; [exact Hd|]. split; [apply Hg|].
  unfold update. rewrite Hg. cbn [bind].
  destruct (to_uint32 (now - last_reading_ms s) >? 200); reflexivity.
Qed.

Lemma empty_port_changes_nothing_witness :
  detect_version (resolved 1 254 []) = Ok (resolved 1 254 [], _version_known (resolved 1 254 [])) /\
  get_reading (resolved 1 254 []) 7 = Ok (resolved 1 254 [], false, 7) /\
  update (fun _ => RangeFinder_Good) 201 (resolved 1 254 []) =
    Ok (set_backend (resolved 1 254 []) (last_reading_ms (resolved 1 254 []))
          (distance_cm (resolved 1 254 []))
          (if to_uint32 (201 - last_reading_ms (resolved 1 254 [])) >? 200
           then RangeFinder_NoData else status (resolved 1 254 []))).
Proof.
  apply (empty_port_changes_nothing (fun _ => RangeFinder_Good) (resolved 1 254 []) 7 201).
  reflexivity.
Defined.

Lemma get_reading_short (s : AP_RangeFinder_uLanding) (rx : UARTDriver) (r : Z) :
  uart s = Some rx ->
  (forall s1 rx1, detect_version s = Ok (s1, true) -> uart s1 = Some rx1 ->
                  (length rx1 < 6)%nat) ->
  outcome (get_reading s r) = Ok (false, r).
Proof.
  intros Hu Hshort.
  destruct (get_reading_cases s rx r Hu) as (s1 & b & rx1 & Hd & Hu1 & Hfalse & Htrue).
  destruct b.
  - destruct (Htrue eq_refl) as (l & Hfold & _ & _ & ->).
    specialize (Hshort s1 rx1 Hd Hu1).
    destruct (reading_fold_short (_version s1) (_header s1)
                (firstn (Z.to_nat (to_int16 (available rx1))) rx1) (reading_init s1)
                (reading_init_inv s1)) as (l' & Hl' & Hc & _).
    { cbn [reading_init r_hdr_found]. rewrite length_firstn. unfold LINEBUF_SIZE. lia. }
    rewrite Hfold in Hl'. inversion Hl'; subst l'.
    cbn zeta. rewrite Hc. reflexivity.
  - destruct (Hfalse eq_refl) as [-> _]. reflexivity.
Qed.

(** X7. Whatever the state of the driver, a call of [get_reading] that
    finds fewer than six bytes waiting returns false and leaves the reading
    alone: no frame, of either dialect, completes on fewer bytes than the
    frame buffer holds. *)
Theorem short_input_no_reading (s : AP_RangeFinder_uLanding) (rx : UARTDriver) (r : Z) :
  uart s = Some rx -> (length rx < 6)%nat ->
  outcome (get_reading s r) = Ok (false, r).
Proof.
  intros Hu Hlen. apply (get_reading_short s rx r Hu).
  intros s1 rx1 Hd Hu1.
  destruct (detect_version_queue s s1 true rx Hu Hd) as (rx1' & Hu1' & Hle & _).
  rewrite Hu1 in Hu1'. inversion Hu1'; subst. lia.
Qed.

Lemma short_input_no_reading_witness :
  outcome (get_reading (resolved 1 254 [xfe; x01; x64; x00; x00]) 9) = Ok (false, 9).
Proof.
  apply (short_input_no_reading (resolved 1 254 [xfe; x01; x64; x00; x00])
           [xfe; x01; x64; x00; x00] 9).
  - reflexivity.
  - cbn. lia.
Defined.

(** X8. A driver whose dialect is not resolved yet needs eight bytes in one
    call to return a reading: the detection uses up at least two of them,
    among them the start of the frame that showed the version, and what is
    left has to fill the frame buffer. *)
Theorem first_reading_needs_eight_bytes (s : AP_RangeFinder_uLanding) (rx : UARTDriver)
  (r : Z) :
  _version_known s = false -> uart s = Some rx -> (length rx < 8)%nat ->
  outcome (get_reading s r) = Ok (false, r).
Proof.
  intros Hk Hu Hlen. apply (get_reading_short s rx r Hu).
  intros s1 rx1 Hd Hu1.
  destruct (detect_version_queue s s1 true rx Hu Hd) as (rx1' & Hu1' & _ & H2 & _).
  rewrite Hu1 in Hu1'. inversion Hu1'; subst. specialize (H2 Hk eq_refl). lia.
Qed.

Lemma first_reading_needs_eight_bytes_witness :
  outcome (get_reading (fresh [xfe; x01; x64; x00; x00; x65; xfe]) 9) = Ok (false, 9).
Proof.
  apply (first_reading_needs_eight_bytes (fresh [xfe; x01; x64; x00; x00; x65; xfe])
           [xfe; x01; x64; x00; x00; x65; xfe] 9).
  - reflexivity.
  - reflexivity.
  - cbn. lia.
Defined.

(** Eight bytes can be enough: the version pair and one frame. *)
Example first_reading_from_eight_bytes :
  outcome (get_reading (fresh ([xfe; x01] ++ frame_100)) 9) = Ok (true, 100).
Proof. vm_compute. reflexivity. Qed.

Lemma get_reading_drained (s s' : AP_RangeFinder_uLanding) (rx : UARTDriver)
  (r cm : Z) (b : bool) :
  uart s = Some rx -> available rx <= 32767 ->
  get_reading s r = Ok (s', b, cm) -> uart s' = Some [].
Proof.
  intros Hu Hav Hg.
  destruct (get_reading_cases s rx r Hu) as (s1 & b1 & rx1 & Hd & Hu1 & Hfalse & Htrue).
  destruct (detect_version_queue s s1 b1 rx Hu Hd) as (rx1' & Hu1' & Hle & _ & Hdr).
  rewrite Hu1 in Hu1'. inversion Hu1'; subst rx1'.
  destruct b1.
  - destruct (Htrue eq_refl) as (l & _ & _ & _ & Hgr). rewrite Hgr in Hg.
    assert (Hav1 : available rx1 <= 32767) by (unfold available in *; lia).
    rewrite nbytes_all, skipn_all in Hg by exact Hav1. cbn zeta in Hg.
    destruct (r_count l =? 0).
    + inversion Hg; subst. reflexivity.
    + destruct (average (_version s1) (r_sum l) (r_count l)); cbn [bind] in Hg;
        [|discriminate].
      inversion Hg; subst. reflexivity.
  - destruct (Hfalse eq_refl) as [Hgr _]. rewrite Hgr in Hg. inversion Hg; subst s' b cm.
    destruct (_version_known s) eqn:Hk.
    + rewrite (detect_version_known s Hk) in Hd. discriminate.
    + rewrite Hu1. f_equal. apply Hdr; auto.
Qed.

(** X9. A call of [get_reading] reads every byte that is waiting, up to
    32767 of them: it leaves the port empty whether it returns a reading or
    not, so a frame still on its way when the call ends has lost its
    beginning. *)
Theorem get_reading_drains_port (s s' : AP_RangeFinder_uLanding) (rx : UARTDriver)
  (r cm : Z) (b : bool) :
  uart s = Some rx -> available rx <= 32767 ->
  get_reading s r = Ok (s', b, cm) -> uart s' = Some [].
Proof.
  exact (get_reading_drained s s' rx r cm b).
Qed.

Lemma get_reading_drains_port_witness :
  get_reading (resolved 1 254 (frame_100 ++ [xfe; x01; xc8])) 0 =
    Ok (set_linebuf (resolved 1 254 []) [xfe; x01; xc8; x00; x00; x65] 3, true, 100) /\
  uart (set_linebuf (resolved 1 254 []) [xfe; x01; xc8; x00; x00; x65] 3) = Some [].
Proof.
  split; [vm_compute; reflexivity|].
  apply (get_reading_drains_port (resolved 1 254 (frame_100 ++ [xfe; x01; xc8]))
           _ (frame_100 ++ [xfe; x01; xc8]) 0 100 true).
  - reflexivity.
  - vm_compute. discriminate.
  - vm_compute. reflexivity.
Defined.

Lemma get_reading_result (s s' : AP_RangeFinder_uLanding) (r cm : Z) (b : bool) :
  get_reading s r = Ok (s', b, cm) ->
  (b = true <-> decoded_frames s <> []) /\ (b = false -> cm = r).
Proof.
  intros Hg. destruct (uart s) as [rx|] eqn:Hu.
  - destruct (get_reading_cases s rx r Hu) as (s1 & b1 & rx1 & Hd & Hu1 & Hfalse & Htrue).
    destruct b1.
    + destruct (Htrue eq_refl) as (l & _ & Hfr & Hc & Hgr). rewrite Hgr in Hg.
      rewrite Hfr. cbn zeta in Hg. destruct (r_count l =? 0) eqn:Hz.
      * inversion Hg; subst. apply Z.eqb_eq in Hz. rewrite Hz in Hc.
        destruct (r_frames l); [|cbn [length] in Hc; lia].
        split; [split; [discriminate|congruence]|reflexivity].
      * destruct (average (_version s1) (r_sum l) (r_count l)); cbn [bind] in Hg;
          [|discriminate].
        inversion Hg; subst. apply Z.eqb_neq in Hz.
        split; [|discriminate]. split; [|reflexivity].
        intros _ E. rewrite E in Hc. cbn [length] in Hc. lia.
    + destruct (Hfalse eq_refl) as [Hgr Hfr]. rewrite Hgr in Hg. inversion Hg; subst.
      rewrite Hfr. split; [split; [discriminate|congruence]|reflexivity].
  - unfold get_reading in Hg. unfold decoded_frames. rewrite Hu in *.
    inversion Hg; subst. split; [split; [discriminate|congruence]|reflexivity].
Qed.

(** X10. [get_reading] returns true exactly when it has accepted at least
    one frame in the call, and when it returns false it has not written to
    [reading_cm]. *)
Theorem reading_iff_frame (s s' : AP_RangeFinder_uLanding) (r cm : Z) (b : bool) :
  get_reading s r = Ok (s', b, cm) ->
  (b = true <-> decoded_frames s <> []) /\ (b = false -> cm = r).
Proof.
  exact (get_reading_result s s' r cm b).
Qed.

Lemma reading_iff_frame_witness :
  (false = true <-> decoded_frames (resolved 1 254 [xfe; x01; x02; x03; x04; x0b]) <> []) /\
  (false = false -> 33 = 33).
Proof.
  apply (reading_iff_frame (resolved 1 254 [xfe; x01; x02; x03; x04; x0b])
           (set_linebuf (resolved 1 254 []) [xfe; x01; x02; x03; x04; x0b] 0) 33 33 false).
  vm_compute. reflexivity.
Defined.

Lemma get_reading_fields (s s' : AP_RangeFinder_uLanding) (r cm : Z) (b : bool) :
  get_reading s r = Ok (s', b, cm) ->
  distance_cm s' = distance_cm s /\ last_reading_ms s' = last_reading_ms s /\
  status s' = status s.
Proof.
  intros Hg. unfold get_reading in Hg.
  destruct (uart s) as [rx|]; [|inversion Hg; subst; auto].
  destruct (detect_version_spec s) as (s1 & b1 & Hd & _ & _ & _ & Hms & Hcm & Hst & _).
  rewrite Hd in Hg. cbn [bind] in Hg. destruct b1; cbn [negb] in Hg.
  - destruct (reading_loop _ _ _ _ _) as [[rx' l]|f]; cbn [bind] in Hg; [|discriminate].
    destruct (r_count l =? 0).
    + inversion Hg; subst. cbn. auto.
    + destruct (average _ _ _); cbn [bind] in Hg; [|discriminate].
      inversion Hg; subst. cbn. auto.
  - inversion Hg; subst. auto.
Qed.

(** X11. Bytes that trickle in, fewer than six between one poll and the
    next, never give a reading, however many polls there are and whatever
    the bytes: each call drains the port and finds no whole frame, and the
    distance and the time of the last reading stay what they were. *)
Theorem slow_delivery_no_reading (us : Z -> RangeFinder_Status)
  (deliveries : list (Z * list byte)) (s : AP_RangeFinder_uLanding) :
  uart s = Some [] ->
  Forall (fun d => (length (snd d) < 6)%nat) deliveries ->
  exists s', run us (polls deliveries) s = Ok s' /\ uart s' = Some [] /\
             distance_cm s' = distance_cm s /\ last_reading_ms s' = last_reading_ms s.
Proof.
  intros Hu Hall. revert s Hu.
  induction Hall as [|[now bytes] ds Hd _ IH]; intros s Hu.
  - exists s. repeat split; auto.
  - cbn [polls flat_map app fst snd run step bind] in *. rewrite Hu.
    cbn [option_map app].
    set (sa := set_uart s (Some bytes)).
    assert (Hsa : uart sa = Some bytes) by reflexivity.
    pose proof (get_reading_short sa bytes (distance_cm sa) Hsa) as Hout.
    assert (Hshort : forall s1 rx1, detect_version sa = Ok (s1, true) ->
                       uart s1 = Some rx1 -> (length rx1 < 6)%nat).
    { intros s1 rx1 Hdet Hu1.
      destruct (detect_version_queue sa s1 true bytes Hsa Hdet) as (rx1' & Hu1' & Hle & _).
      rewrite Hu1 in Hu1'. inversion Hu1'; subst. lia. }
    specialize (Hout Hshort). unfold update.
    destruct (get_reading sa (distance_cm sa)) as [[[sb ok] cm]|f] eqn:Hg;
      cbn [outcome bind] in Hout; [|discriminate].
    inversion Hout; subst ok cm. cbn [bind].
    assert (Hav : available bytes <= 32767) by (unfold available; lia).
    pose proof (get_reading_drained sa sb bytes _ _ _ Hsa Hav Hg) as Hub.
    destruct (get_reading_fields sa sb _ _ _ Hg) as (Hcm & Hms & Hst).
    match goal with
    | |- exists s', bind ?x _ = _ /\ _ =>
        assert (Hx : exists sc, x = Ok sc /\ uart sc = Some [] /\
                       distance_cm sc = distance_cm s /\
                       last_reading_ms sc = last_reading_ms s)
    end.
    { destruct (to_uint32 (now - last_reading_ms sb) >? 200);
        eexists; (split; [reflexivity|]); cbn; repeat split; auto. }
    destruct Hx as (sc & -> & Huc & Hdc & Hmc). cbn [bind].
    destruct (IH sc Huc) as (s' & Hr & Hu' & Hd' & Hm').
    exists s'. change (flat_map _ ds) with (polls ds).
    repeat split; try assumption; congruence.
Qed.

Lemma slow_delivery_no_reading_witness :
  exists s', run (fun _ => RangeFinder_Good)
               (polls [(10, [xfe; x01; x64]); (20, [x00; x00; x65])])
               (resolved 1 254 []) = Ok s' /\
             uart s' = Some [] /\
             distance_cm s' = distance_cm (resolved 1 254 []) /\
             last_reading_ms s' = last_reading_ms (resolved 1 254 []).
Proof.
  apply (slow_delivery_no_reading (fun _ => RangeFinder_Good)
           [(10, [xfe; x01; x64]); (20, [x00; x00; x65])] (resolved 1 254 [])).
  - reflexivity.
  - repeat constructor.
Defined.

(** The same frame of 100 cm in one delivery is read. *)
Example whole_delivery_reading :
  run (fun _ => RangeFinder_Good) (polls [(10, frame_100)]) (resolved 1 254 [])
  = Ok {| uart := Some []; _version_known := true; _version := 1; _header := 254;
          linebuf := frame_100; linebuf_len := 0;
          last_reading_ms := 10; distance_cm := 100; status := RangeFinder_Good |}.
Proof. vm_compute. reflexivity. Qed.

(** ** The decoder on a well-formed stream *)

Lemma reading_fold_segments (v h : Z) (segs : list segment) (l : reading_locals) :
  r_hdr_found l = false -> length (r_linebuf l) = 6%nat ->
  Forall (segment_wf h) segs ->
  exists l', reading_fold v h (flat_map segment_bytes segs) l = Ok l' /\
             r_hdr_found l' = false /\ length (r_linebuf l') = 6%nat /\
             r_frames l' = r_frames l ++ flat_map (segment_frames v) segs.
Proof.
  intros Hf Hl Hwf. revert l Hf Hl.
  induction Hwf as [|g segs Hg _ IH]; intros l Hf Hl; cbn [flat_map].
  - exists l. rewrite app_nil_r. repeat split; auto.
  - rewrite reading_fold_app. destruct g as [bytes|c0 c1 c2 c3 c4 c5];
      cbn [segment_bytes segment_frames segment_wf] in *.
    + rewrite (reading_fold_skip v h bytes l Hf Hg). cbn [bind app].
      apply IH; assumption.
    + rewrite (reading_fold_frame v h c0 c1 c2 c3 c4 c5 l Hf Hg Hl). cbn [bind].
      destruct (IH (processed v (collected l [c0; c1; c2; c3; c4; c5])))
        as (l' & Hl' & Hf' & Hlen' & Hfr'); try reflexivity.
      { unfold processed. destruct (v =? 0); [|destruct (checksum_ok _)]; reflexivity. }
      exists l'. repeat split; try assumption.
      rewrite Hfr', app_assoc. f_equal.
      unfold processed, checksum_ok, parse_v0, parse_v1, linebuf_at.
      cbn [collected r_linebuf nth]. rewrite land_255_mod.
      destruct (v =? 0); [reflexivity|].
      destruct ((b2z c1 + b2z c2 + b2z c3 + b2z c4) mod 256 =? b2z c5);
        cbn; rewrite ?app_nil_r; reflexivity.
Qed.

Lemma reading_fold_stream (v h : Z) (segs : list segment) (tail : list byte)
  (l : reading_locals) :
  r_hdr_found l = false -> length (r_linebuf l) = 6%nat ->
  Forall (segment_wf h) segs -> (length tail < 6)%nat ->
  exists l', reading_fold v h (flat_map segment_bytes segs ++ tail) l = Ok l' /\
             r_frames l' = r_frames l ++ flat_map (segment_frames v) segs.
Proof.
  intros Hf Hl Hwf Htail.
  destruct (reading_fold_segments v h segs l Hf Hl Hwf) as (l1 & H1 & Hf1 & _ & Hfr1).
  destruct (reading_fold_short v h tail l1) as (l' & Hl' & _ & _ & Hfr').
  - intros E. congruence.
  - rewrite Hf1. unfold LINEBUF_SIZE. lia.
  - exists l'. rewrite reading_fold_app, H1. cbn [bind]. split; [exact Hl'|congruence].
Qed.

(** X12. On a stream made of whole frames, each starting with the header
    byte, with any bytes other than the header byte before and between
    them, and fewer than six bytes of any kind after the last, a call
    accepts the frames in order: under a version other than 0 those whose
    checksum holds, each for byte3 * 256 + byte2; under version 0 every one,
    for (byte2 & 0x7F) * 128 + (byte1 & 0x7F), so that two legacy frames of
    three bytes back to back count as one and the second is lost.  When
    their sum is below 2^24 the call returns their integer mean, scaled
    under version 0, or false when there are none. *)
Theorem frame_stream_decoded (s : AP_RangeFinder_uLanding) (segs : list segment)
  (tail : list byte) (r : Z) :
  _version_known s = true -> length (linebuf s) = 6%nat ->
  uart s = Some (flat_map segment_bytes segs ++ tail) ->
  available (flat_map segment_bytes segs ++ tail) <= 32767 ->
  Forall (segment_wf (_header s)) segs -> (length tail < 6)%nat ->
  decoded_frames s = flat_map (segment_frames (_version s)) segs /\
  (total (flat_map (segment_frames (_version s)) segs) < 16777216 ->
   outcome (get_reading s r) =
   match flat_map (segment_frames (_version s)) segs with
   | [] => Ok (false, r)
   | _ :: _ => Ok (true, scaled (_version s)
                           (mean (flat_map (segment_frames (_version s)) segs)))
   end).
Proof.
  intros Hk Hl Hu Hav Hwf Htail.
  destruct (reading_fold_stream (_version s) (_header s) segs tail (reading_init s)
              eq_refl Hl Hwf Htail) as (l & Hfold & Hfr).
  cbn [reading_init r_frames app] in Hfr.
  assert (Hdec : decoded_frames s = flat_map (segment_frames (_version s)) segs).
  { rewrite (decoded_frames_known s _ l Hk Hu); [exact Hfr|].
    rewrite nbytes_all, firstn_all by exact Hav. exact Hfold. }
  split; [exact Hdec|].
  intros Htot. rewrite <- Hdec in *.
  apply get_reading_frames; [exact Hk|congruence|exact Htot].
Qed.

Lemma frame_stream_decoded_witness :
  decoded_frames (resolved 1 254 (flat_map segment_bytes stream_example ++ [xfe; x01]))
  = flat_map (segment_frames (_version
      (resolved 1 254 (flat_map segment_bytes stream_example ++ [xfe; x01]))))
      stream_example.
Proof.
  apply (frame_stream_decoded
           (resolved 1 254 (flat_map segment_bytes stream_example ++ [xfe; x01]))
           stream_example [xfe; x01] 0).
  - reflexivity.
  - reflexivity.
  - reflexivity.
  - vm_compute. discriminate.
  - repeat constructor; discriminate.
  - cbn. lia.
Defined.

(** Every stream is of that shape: single bytes of noise, whole frames
    wherever a header byte is met outside a frame, and at the end the
    beginning of a frame that has not all arrived. *)
Lemma stream_splits (h : Z) (bytes : list byte) :
  exists segs tail, bytes = flat_map segment_bytes segs ++ tail /\
                    Forall (segment_wf h) segs /\ (length tail < 6)%nat.
Proof.
  assert (H : forall n bs, (length bs <= n)%nat ->
            exists segs tail, bs = flat_map segment_bytes segs ++ tail /\
                              Forall (segment_wf h) segs /\ (length tail < 6)%nat).
  { induction n as [|n IH]; intros bs Hn.
    - destruct bs; [|cbn in Hn; lia]. exists [], []. repeat split; auto. cbn. lia.
    - destruct bs as [|c bs]; [exists [], []; repeat split; auto; cbn; lia|].
      cbn [length] in Hn. destruct (Z.eq_dec (b2z c) h) as [E|E].
      + destruct bs as [|c1 [|c2 [|c3 [|c4 [|c5 rest]]]]];
          try (eexists [], _; split; [reflexivity|]; split; [constructor|cbn; lia]).
        destruct (IH rest) as (segs & tail & -> & Hwf & Ht); [cbn [length] in Hn; lia|].
        exists (Frame c c1 c2 c3 c4 c5 :: segs), tail.
        split; [reflexivity|]. split; [constructor; assumption|exact Ht].
      + destruct (IH bs) as (segs & tail & -> & Hwf & Ht); [lia|].
        exists (Noise [c] :: segs), tail.
        split; [reflexivity|]. split; [|exact Ht].
        constructor; [|assumption]. cbn. constructor; [exact E|constructor]. }
  apply (H (length bytes)). lia.
Qed.

(** X15. Whatever bytes are waiting, at most 32767 of them, the frames a
    call accepts are those of a split of the bytes into noise without header
    bytes, whole frames that start with the header byte, and fewer than six
    bytes at the end: the decoder takes a frame wherever it meets a header
    byte outside a frame, and nowhere else. *)
Theorem every_stream_decoded (s : AP_RangeFinder_uLanding) (rx : UARTDriver) :
  _version_known s = true -> length (linebuf s) = 6%nat ->
  uart s = Some rx -> available rx <= 32767 ->
  exists segs tail,
    rx = flat_map segment_bytes segs ++ tail /\
    Forall (segment_wf (_header s)) segs /\ (length tail < 6)%nat /\
    decoded_frames s = flat_map (segment_frames (_version s)) segs.
Proof.
  intros Hk Hl Hu Hav.
  destruct (stream_splits (_header s) rx) as (segs & tail & Hrx & Hwf & Htail).
  exists segs, tail. split; [exact Hrx|]. split; [exact Hwf|]. split; [exact Htail|].
  destruct (reading_fold_stream (_version s) (_header s) segs tail (reading_init s)
              eq_refl Hl Hwf Htail) as (l & Hfold & Hfr).
  cbn [reading_init r_frames app] in Hfr.
  rewrite (decoded_frames_known s rx l Hk Hu); [exact Hfr|].
  rewrite nbytes_all, firstn_all by exact Hav. rewrite Hrx. exact Hfold.
Qed.

Lemma every_stream_decoded_witness :
  exists segs tail,
    [x00; xfe; x01; x64; x00; x00; x65; xfe] = flat_map segment_bytes segs ++ tail /\
    Forall (segment_wf (_header (resolved 1 254 [x00; xfe; x01; x64; x00; x00; x65; xfe])))
      segs /\
    (length tail < 6)%nat /\
    decoded_frames (resolved 1 254 [x00; xfe; x01; x64; x00; x00; x65; xfe]) =
    flat_map (segment_frames
                (_version (resolved 1 254 [x00; xfe; x01; x64; x00; x00; x65; xfe]))) segs.
Proof.
  apply (every_stream_decoded (resolved 1 254 [x00; xfe; x01; x64; x00; x00; x65; xfe])
           [x00; xfe; x01; x64; x00; x00; x65; xfe]).
  - reflexivity.
  - reflexivity.
  - reflexivity.
  - vm_compute. discriminate.
Defined.

(** The stream of the witness: 100 cm, a frame with a bad checksum, and
    65224 cm in a frame whose high distance byte is 0xFE. *)
Example frame_stream_reading :
  outcome (get_reading
             (resolved 1 254 (flat_map segment_bytes stream_example ++ [xfe; x01])) 0)
  = Ok (true, 32662).
Proof. vm_compute. reflexivity. Qed.

(** ** update: staleness *)

(** X13. When a poll brings no reading, [update] keeps the distance and the
    time of the last reading and sets the status to no-data exactly when
    more than 200 ms have passed since that reading.  The elapsed time is
    taken modulo 2^32, so the test is right across a wrap of the millisecond
    clock. *)
Theorem stale_after_200_ms (us : Z -> RangeFinder_Status)
  (s s1 : AP_RangeFinder_uLanding) (cm elapsed now : Z) :
  get_reading s (distance_cm s) = Ok (s1, false, cm) ->
  0 <= last_reading_ms s < 4294967296 -> 0 <= elapsed < 4294967296 ->
  now = to_uint32 (last_reading_ms s + elapsed) ->
  update us now s =
    Ok (set_backend s1 (last_reading_ms s) (distance_cm s)
          (if 200 <? elapsed then RangeFinder_NoData else status s)).
Proof.
  intros Hg Hlast He Hnow.
  destruct (get_reading_fields s s1 _ _ _ Hg) as (_ & Hms & Hst).
  destruct (get_reading_result s s1 _ _ _ Hg) as [_ Hcm]. specialize (Hcm eq_refl).
  subst cm. unfold update. rewrite Hg. cbn [bind]. rewrite Hms, Hst.
  assert (Hel : to_uint32 (now - last_reading_ms s) = elapsed).
  { subst now. unfold to_uint32.
    rewrite Zminus_mod_idemp_l.
    replace (last_reading_ms s + elapsed - last_reading_ms s) with elapsed by lia.
    apply Z.mod_small. lia. }
  rewrite Hel, Z.gtb_ltb.
  destruct (200 <? elapsed); reflexivity.
Qed.

Lemma stale_after_200_ms_witness :
  update (fun _ => RangeFinder_Good) 204
    (set_backend (resolved 1 254 []) 4294967200 77 RangeFinder_Good) =
  Ok (set_backend (set_backend (resolved 1 254 []) 4294967200 77 RangeFinder_Good)
        (last_reading_ms (set_backend (resolved 1 254 []) 4294967200 77 RangeFinder_Good))
        (distance_cm (set_backend (resolved 1 254 []) 4294967200 77 RangeFinder_Good))
        (if 200 <? 300 then RangeFinder_NoData
         else status (set_backend (resolved 1 254 []) 4294967200 77 RangeFinder_Good))).
Proof.
  apply (stale_after_200_ms (fun _ => RangeFinder_Good)
           (set_backend (resolved 1 254 []) 4294967200 77 RangeFinder_Good)
           (set_backend (resolved 1 254 []) 4294967200 77 RangeFinder_Good)
           77 300 204).
  - reflexivity.
  - cbn. lia.
  - lia.
  - reflexivity.
Defined.

(** ** get_reading: the range of a legacy reading *)

(** X14. Under version 0 a reading is at most 40957 cm, 2.5 times the
    largest value two 7-bit fields hold, as long as the frames of the call
    add up to less than 2^24. *)
Theorem legacy_reading_bound (s s' : AP_RangeFinder_uLanding) (r cm : Z) :
  _version_known s = true -> _version s = 0 ->
  total (decoded_frames s) < 16777216 ->
  get_reading s r = Ok (s', true, cm) ->
  0 <= cm <= 40957.
Proof.
  intros Hk Hv Htot Hg.
  destruct (uart s) as [rx|] eqn:Hu;
    [|unfold get_reading in Hg; rewrite Hu in Hg; discriminate].
  pose proof (get_reading_frames s r Hk ltac:(congruence) Htot) as Hout.
  destruct (get_reading_cases s rx r Hu) as (s1 & b & rx1 & Hd & Hu1 & _ & Htrue).
  rewrite (detect_version_known s Hk) in Hd. inversion Hd; subst s1 b.
  destruct (Htrue eq_refl) as (l & Hfold & Hfr & _).
  destruct (reading_fold_frames _ _ _ _ l Hfold) as (ext & He & Hall & _).
  cbn [reading_init r_frames app] in He. rewrite <- He, <- Hfr in Hall.
  rewrite Hg in Hout. cbn [outcome bind] in Hout.
  destruct (decoded_frames s) as [|raw frames] eqn:Hdf; [discriminate|].
  inversion Hout as [Hcm]. clear Hout.
  pose proof (total_nonneg _ _ Hall) as Hnn. pose proof (total_le _ _ Hall) as Hle.
  unfold scaled, mean, raw_max in *. rewrite Hv in *. cbn [Z.eqb] in *.
  cbn [length] in *.
  assert (Hm0 : 0 <= total (raw :: frames) / Z.of_nat (S (length frames)))
    by (apply Z.div_pos; lia).
  assert (Hm1 : total (raw :: frames) / Z.of_nat (S (length frames)) <= 16383)
    by (apply Z.div_le_upper_bound; lia).
  split.
  - apply Z.div_pos; lia.
  - apply Z.lt_succ_r, Z.div_lt_upper_bound; lia.
Qed.

Lemma legacy_reading_bound_witness :
  get_reading (resolved 0 72 [x48; x7f; x7f; x00; x00; x00]) 0 =
    Ok (set_linebuf (resolved 0 72 []) [x48; x7f; x7f; x00; x00; x00] 0, true, 40957) /\
  0 <= 40957 <= 40957.
Proof.
  split; [vm_compute; reflexivity|].
  apply (legacy_reading_bound (resolved 0 72 [x48; x7f; x7f; x00; x00; x00])
           (set_linebuf (resolved 0 72 []) [x48; x7f; x7f; x00; x00; x00] 0) 0 40957).
  - reflexivity.
  - reflexivity.
  - vm_compute. reflexivity.
  - vm_compute. reflexivity.
Defined.

(** The bound is met: both fields at 0x7F read 40957 cm. *)
Example legacy_reading_largest :
  outcome (get_reading (resolved 0 72 [x48; x7f; x7f; x00; x00; x00]) 0) = Ok (true, 40957).
Proof. vm_compute. reflexivity. Qed.

(** ** get_reading: the exact mean for the bytes of one poll *)

Lemma segment_frames_count (v : Z) (segs : list segment) :
  (6 * length (flat_map (segment_frames v) segs)
   <= length (flat_map segment_bytes segs))%nat.
Proof.
  induction segs as [|g segs IH]; cbn [flat_map]; [cbn; lia|].
  rewrite !length_app. destruct g as [bytes|c0 c1 c2 c3 c4 c5];
    cbn [segment_frames segment_bytes length].
  - lia.
  - destruct (v =? 0); [cbn [length]; lia|].
    destruct (_ =? _); cbn [length]; lia.
Qed.

(** X16. With at most 1541 bytes waiting, which hold at most 256 frames, a
    call on a resolved driver never leaves the range in which the float sum
    is exact: it returns, false when it has accepted no frame and otherwise
    true with the integer mean of the raw values of the accepted frames,
    multiplied by 2.5 with the fraction dropped under version 0. *)
Theorem reading_exact_for_one_poll (s : AP_RangeFinder_uLanding) (rx : UARTDriver) (r : Z) :
  _version_known s = true -> length (linebuf s) = 6%nat ->
  uart s = Some rx -> available rx <= 1541 ->
  outcome (get_reading s r) =
  match decoded_frames s with
  | [] => Ok (false, r)
  | _ :: _ => Ok (true, scaled (_version s) (mean (decoded_frames s)))
  end.
Proof.
  intros Hk Hl Hu Hav.
  apply get_reading_frames; [exact Hk|congruence|].
  destruct (stream_splits (_header s) rx) as (segs & tail & Hrx & Hwf & Htail).
  destruct (reading_fold_stream (_version s) (_header s) segs tail (reading_init s)
              eq_refl Hl Hwf Htail) as (l & Hfold & Hfr).
  cbn [reading_init r_frames app] in Hfr.
  destruct (reading_fold_frames _ _ _ _ l Hfold) as (ext & He & Hall & _).
  cbn [reading_init r_frames app] in He.
  assert (Hav' : available rx <= 32767) by lia.
  rewrite (decoded_frames_known s rx l Hk Hu)
    by (rewrite nbytes_all, firstn_all by exact Hav'; rewrite Hrx; exact Hfold).
  rewrite He in *. pose proof (total_le _ _ Hall) as Hle.
  pose proof (segment_frames_count (_version s) segs) as Hcount.
  rewrite <- Hfr in Hcount.
  assert (Hbytes : (length (flat_map segment_bytes segs) <= length rx)%nat).
  { rewrite Hrx, length_app. lia. }
  unfold available in Hav.
  assert (Hn : Z.of_nat (length ext) <= 256) by lia.
  assert (Hmax : 0 <= raw_max (_version s) <= 65535).
  { unfold raw_max. destruct (_version s =? 0); lia. }
  nia.
Qed.

Lemma reading_exact_for_one_poll_witness :
  outcome (get_reading (resolved 1 254 frames_100_200) 0) =
  match decoded_frames (resolved 1 254 frames_100_200) with
  | [] => Ok (false, 0)
  | _ :: _ => Ok (true, scaled (_version (resolved 1 254 frames_100_200))
                          (mean (decoded_frames (resolved 1 254 frames_100_200))))
  end.
Proof.
  apply (reading_exact_for_one_poll (resolved 1 254 frames_100_200) frames_100_200 0).
  - reflexivity.
  - reflexivity.
  - reflexivity.
  - vm_compute. discriminate.
Defined.

(** ** A sensor that reports sub-version 0 *)

Lemma get_reading_length (s s' : AP_RangeFinder_uLanding) (r cm : Z) (b : bool) :
  get_reading s r = Ok (s', b, cm) -> length (linebuf s') = length (linebuf s).
Proof.
  intros Hg. destruct (uart s) as [rx|] eqn:Hu.
  - destruct (get_reading_cases s rx r Hu) as (s1 & b1 & rx1 & Hd & Hu1 & Hfalse & Htrue).
    destruct (detect_version_spec s) as (s1' & b1' & Hd' & _ & Hlb & _).
    rewrite Hd in Hd'. inversion Hd'; subst s1' b1'. clear Hd'.
    destruct b1.
    + destruct (Htrue eq_refl) as (l & Hfold & _ & _ & Hgr). rewrite Hgr in Hg.
      pose proof (reading_fold_length _ _ _ _ _ Hfold) as Hlen.
      cbn [reading_init r_linebuf] in Hlen. cbn zeta in Hg.
      destruct (r_count l =? 0).
      * inversion Hg; subst. cbn [set_linebuf linebuf]. congruence.
      * destruct (average (_version s1) (r_sum l) (r_count l)); cbn [bind] in Hg;
          [|discriminate].
        inversion Hg; subst. cbn [set_linebuf linebuf]. congruence.
    + destruct (Hfalse eq_refl) as [Hgr _]. rewrite Hgr in Hg. inversion Hg; subst.
      congruence.
  - unfold get_reading in Hg. rewrite Hu in Hg. inversion Hg; subst. reflexivity.
Qed.

Lemma step_length (us : Z -> RangeFinder_Status) (e : event) (s s' : AP_RangeFinder_uLanding) :
  step us e s = Ok s' -> length (linebuf s') = length (linebuf s).
Proof.
  destruct e as [bytes| | |now]; cbn [step]; intros H.
  - inversion H; subst. reflexivity.
  - destruct (detect_version_spec s) as (s1 & b & Hd & _ & Hlb & _).
    rewrite Hd in H. cbn [bind] in H. inversion H; subst. congruence.
  - destruct (get_reading s (distance_cm s)) as [[[s1 ok] cm]|f] eqn:Hg;
      cbn [bind] in H; [|discriminate].
    inversion H; subst. cbn [set_backend linebuf].
    apply (get_reading_length _ _ _ _ _ Hg).
  - unfold update in H.
    destruct (get_reading s (distance_cm s)) as [[[s1 ok] cm]|f] eqn:Hg;
      cbn [bind] in H; [|discriminate].
    pose proof (get_reading_length _ _ _ _ _ Hg) as Hlen.
    destruct ok; [|destruct (_ >? _)]; inversion H; subst; exact Hlen.
Qed.

(** No call and no delivery changes the size of the frame buffer. *)
Lemma run_length (us : Z -> RangeFinder_Status) (es : list event)
  (s s' : AP_RangeFinder_uLanding) :
  run us es s = Ok s' -> length (linebuf s') = length (linebuf s).
Proof.
  revert s. induction es as [|e es IH]; intros s H; cbn [run] in H.
  - inversion H; subst. reflexivity.
  - destruct (step us e s) as [s1|f] eqn:He; cbn [bind] in H; [|discriminate].
    rewrite (IH s1 H). apply (step_length us e s s1 He).
Qed.

Lemma segment_frames_legacy (segs : list segment) :
  flat_map (segment_frames 0) segs = flat_map segment_legacy segs.
Proof.
  induction segs as [|g segs IH]; [reflexivity|].
  cbn [flat_map]. rewrite IH. destruct g; reflexivity.
Qed.

(** C8. When an unresolved detector is searching for a header byte as it
    reads the 0xFE of a pair [0xFE, 0x00], [detect_version] returns true
    with version 0 and header byte 0xFE stored, and the bytes after the pair
    left on the port.
    From the instance it returns, after any calls of [detect_version],
    [get_reading] and [update] and any deliveries, a call of [get_reading]
    decodes whatever stream is waiting by the legacy rules: every stretch of
    six bytes that starts with 0xFE counts for
    (byte2 & 0x7F) * 128 + (byte1 & 0x7F), whatever its other bytes and its
    checksum byte, and the reading is 2.5 times the integer mean of these
    values, fraction dropped, as long as they add up to less than 2^24.
    A stream is whole frames with bytes other than 0xFE before and between
    them and fewer than six bytes at the end; every byte sequence is one. *)
Theorem subversion_zero_is_legacy (us : Z -> RangeFinder_Status)
  (s : AP_RangeFinder_uLanding) (pre rest : list byte) :
  _version_known s = false -> uart s = Some (pre ++ xfe :: x00 :: rest) ->
  available (pre ++ xfe :: x00 :: rest) <= 32767 -> searching_after pre ->
  length (linebuf s) = 6%nat ->
  exists s1,
    detect_version s = Ok (s1, true) /\
    _version_known s1 = true /\ _version s1 = 0 /\ _header s1 = ULANDING_HDR /\
    uart s1 = Some rest /\
    forall (es : list event) (s2 : AP_RangeFinder_uLanding)
           (segs : list segment) (tail : list byte) (r : Z),
      run us es s1 = Ok s2 ->
      uart s2 = Some (flat_map segment_bytes segs ++ tail) ->
      available (flat_map segment_bytes segs ++ tail) <= 32767 ->
      Forall (segment_wf ULANDING_HDR) segs -> (length tail < 6)%nat ->
      _version s2 = 0 /\ _header s2 = ULANDING_HDR /\
      decoded_frames s2 = flat_map segment_legacy segs /\
      (total (flat_map segment_legacy segs) < 16777216 ->
       outcome (get_reading s2 r) =
       match flat_map segment_legacy segs with
       | [] => Ok (false, r)
       | _ :: _ => Ok (true, 5 * mean (flat_map segment_legacy segs) / 2)
       end).
Proof.
  intros Hk Hu Hav (d & Hpre & Hf) Hl.
  exists (set_version (set_uart s (Some rest)) 0 ULANDING_HDR).
  split.
  { rewrite (detect_version_scan s _ Hk Hu), nbytes_all by exact Hav.
    rewrite length_app. cbn [length].
    rewrite (detect_loop_app pre _ _ detect_init d Hpre).
    cbn [detect_loop read bind].
    rewrite (detect_body_candidate (b2z xfe) d Hf) by (right; reflexivity).
    change (b2z xfe) with ULANDING_HDR. rewrite detect_body_v1_decide.
    reflexivity. }
  do 4 (split; [reflexivity|]).
  intros es s2 segs tail r Hrun Hu2 Hav2 Hwf Htail.
  pose proof (run_returns us es (set_version (set_uart s (Some rest)) 0 ULANDING_HDR)) as Hlatch.
  pose proof (run_length us es _ s2 Hrun) as Hl2.
  rewrite Hrun in Hlatch. cbn [returns_unless_narrowing] in Hlatch.
  specialize (Hlatch eq_refl). unfold latch in Hlatch.
  cbn [set_version set_uart _version_known _version _header linebuf] in Hlatch, Hl2.
  assert (Hk2 : _version_known s2 = true) by congruence.
  assert (Hv2 : _version s2 = 0) by congruence.
  assert (Hh2 : _header s2 = ULANDING_HDR) by congruence.
  clear Hlatch. rewrite Hl in Hl2.
  split; [exact Hv2|]. split; [exact Hh2|].
  rewrite <- Hh2 in Hwf.
  destruct (reading_fold_stream (_version s2) (_header s2) segs tail (reading_init s2)
              eq_refl Hl2 Hwf Htail) as (l & Hfold & Hfr).
  cbn [reading_init r_frames app] in Hfr. rewrite Hv2, segment_frames_legacy in Hfr.
  assert (Hdec : decoded_frames s2 = flat_map segment_legacy segs).
  { rewrite (decoded_frames_known s2 _ l Hk2 Hu2); [exact Hfr|].
    rewrite nbytes_all, firstn_all by exact Hav2. exact Hfold. }
  split; [exact Hdec|].
  intros Htot. rewrite <- Hdec in *.
  rewrite (get_reading_frames s2 r Hk2 ltac:(congruence) Htot).
  unfold scaled. rewrite Hv2. reflexivity.
Qed.

Lemma subversion_zero_is_legacy_witness :
  exists s1 s2,
    detect_version (fresh ([x12] ++ xfe :: x00 :: [xfe; x00; x0a; x00; x00; x0a]))
      = Ok (s1, true) /\
    _version_known s1 = true /\ _version s1 = 0 /\ _header s1 = ULANDING_HDR /\
    uart s1 = Some [xfe; x00; x0a; x00; x00; x0a] /\
    run (fun _ => RangeFinder_Good)
      [CallUpdate 10; Receive [x07; xfe; x00; x14; x00; x00; x14; xfe; x01]] s1 = Ok s2 /\
    distance_cm s2 = 3200 /\
    _version s2 = 0 /\ _header s2 = ULANDING_HDR /\
    decoded_frames s2 = [2560] /\
    outcome (get_reading s2 3200) = Ok (true, 6400).
Proof.
  destruct (subversion_zero_is_legacy (fun _ => RangeFinder_Good)
              (fresh ([x12] ++ xfe :: x00 :: [xfe; x00; x0a; x00; x00; x0a]))
              [x12] [xfe; x00; x0a; x00; x00; x0a])
    as (s1 & Hd & Hk & Hv & Hh & Hu & Hlater).
  - reflexivity.
  - reflexivity.
  - vm_compute. discriminate.
  - eexists. split; reflexivity.
  - reflexivity.
  - assert (Hs1 : s1 = resolved 0 254 [xfe; x00; x0a; x00; x00; x0a]).
    { vm_compute in Hd. injection Hd as <-. reflexivity. }
    assert (Hrun : run (fun _ => RangeFinder_Good)
                     [CallUpdate 10; Receive [x07; xfe; x00; x14; x00; x00; x14; xfe; x01]] s1
                   = Ok {| uart := Some [x07; xfe; x00; x14; x00; x00; x14; xfe; x01];
                           _version_known := true; _version := 0; _header := 254;
                           linebuf := [xfe; x00; x0a; x00; x00; x0a]; linebuf_len := 0;
                           last_reading_ms := 10; distance_cm := 3200;
                           status := RangeFinder_Good |}).
    { rewrite Hs1. vm_compute. reflexivity. }
    destruct (Hlater _ _ [Noise [x07]; Frame xfe x00 x14 x00 x00 x14] [xfe; x01] 3200 Hrun)
      as (Hv2 & Hh2 & Hdec & Hout).
    + reflexivity.
    + vm_compute. discriminate.
    + repeat constructor; discriminate.
    + cbn. lia.
    + exists s1. eexists. split; [exact Hd|]. split; [exact Hk|]. split; [exact Hv|].
      split; [exact Hh|]. split; [exact Hu|]. split; [exact Hrun|].
      split; [reflexivity|]. split; [exact Hv2|]. split; [exact Hh2|].
      split; [exact Hdec|]. apply Hout. vm_compute. reflexivity.
Defined.

(** The same sensor as a ChecksummedV1 decoder would read it: had the
    stored version been 1, the second frame would have read 20 cm. *)
Example checksummed_decoder_reads_20 :
  outcome (get_reading (resolved 1 254 [x07; xfe; x00; x14; x00; x00; x14; xfe; x01]) 3200)
  = Ok (true, 20).
Proof. vm_compute. reflexivity. Qed.
